(** * A shallow embedding of the retrying HTTP client (package [client])

    The development follows [options.go] and [client.go]: the functional
    options and the heap cells they allocate or mutate, the construction of a
    [Client], and [Do] with its retry loop, per-attempt timeout, tracing span
    and response-body wrapper.  Everything the package talks to (the network
    transport, the tracer, the caller's context and body) is gathered in a
    [World] of scripted answers, and every interaction is recorded in a trace
    of [Event]s, so that statements about "how many times" and "in which
    order" are statements about that trace.  The two structs that [options]
    points to live in a [Heap], so that a write through a shared pointer is
    seen by every holder of the pointer.  The retry loop of the library is
    not bounded by itself; it is run on [fuel], and the properties say how
    much fuel is enough. *)

From Stdlib Require Import ZArith NArith List String Bool Lia QArith.
From Stdlib.Strings Require Import Byte.
From stdpp Require Import base list.
Import ListNotations.

Local Open Scope string_scope.
Local Open Scope list_scope.
Local Open Scope Z_scope.

(** ** Base data *)

(** [time.Duration] is an int64 count of nanoseconds. *)
Definition Duration := Z.
Definition Millisecond : Duration := 1000000.
Definition Second : Duration := 1000 * Millisecond.

(** Go's [uint] (64 bits on the supported platforms) and [uint32]. *)
Definition uint_modulus : N := (2 ^ 64)%N.
Definition uint_succ (n : N) : N := ((n + 1) mod uint_modulus)%N.
Definition uint32_succ (n : Z) : Z := (n + 1) mod 2 ^ 32.

(** Error values.  [WithMessage] is a wrapper layer (what [errors.Wrap] of
    github.com/pkg/errors builds, or any error with an [Unwrap]/[Cause]);
    [RetryError] is the string error type of the retry library, whose
    [Unwrap] answers nil; [Canceled] and [DeadlineExceeded] are the two
    errors a context reports. *)
Inductive error : Type :=
| ErrorString (msg : string)
| RetryError (msg : string)
| Canceled
| DeadlineExceeded
| WithMessage (cause : error) (msg : string).

(** [errors.Wrap(err, msg)]: nil stays nil. *)
Definition Wrap (err : option error) (msg : string) : option error :=
  match err with
  | None => None
  | Some e => Some (WithMessage e msg)
  end.

(** The pseudo-random generator a client owns; only its identity matters. *)
Inductive Rand : Type := NewRand (seed : Z).

(** [opentracing.StartSpanOption] values are opaque to the package. *)
Inductive StartSpanOption : Type :=
| SpanOption (id : nat)
| Tags (kv : list (string * string)).

(** ** Retry strategies (github.com/kamilsk/retry/v5/strategy)

    A [strategy.Strategy] is a [func(Breaker, uint, error) bool].  The ones
    the package builds itself are kept as data so that a policy can be
    inspected; [CustomStrategy] is any other function the caller passes. *)
Inductive Backoff : Type := BinaryExponential (factor : Duration).
Inductive Jitter : Type := NormalDistribution (generator : Rand) (stdDeviation : Q).

Inductive Strategy : Type :=
| Limit (value : N)
| BackoffWithJitter (algorithm : Backoff) (transformation : Jitter)
| CustomStrategy (f : option error -> N -> option error -> bool).

(** Modelled from the spec: [strategy.Limit] and [strategy.BackoffWithJitter]
    are functions of the retry library (github.com/kamilsk/retry/v5, pinned
    at v5.0.0-rc8 in go.mod), which is not under src/.  The spec (4.4, 6)
    describes a strategy as an evaluator that is given the cumulative attempt
    count, may block for a delay, and answers "continue" or "stop", and the
    attempt-count strategy as the one that stops at its bound.  In the
    library a strategy receives the breaker (here: the error the overall
    context reports when it is observed, nil while it is live), the
    zero-based index of the attempt about to be made and the unwrapped error
    of the previous attempt.  [Limit value] admits the attempts
    [0 .. value-1]; the backoff strategy waits before every attempt but the
    first and refuses only when the breaker fires during the wait (the length
    of the wait, which is where the backoff factor and the jitter enter, is
    not modelled). *)
Definition runStrategy (s : Strategy) (breaker : option error) (attempt : N)
    (err : option error) : bool :=
  match s with
  | Limit value => (attempt <? value)%N
  | BackoffWithJitter _ _ =>
      if (0 <? attempt)%N
      then match breaker with None => true | Some _ => false end
      else true
  | CustomStrategy f => f breaker attempt err
  end.

(** ** options.go *)

Record retryPolicy : Type := {
  requestTimeout : Duration;
  retryStrategies : list Strategy
}.

Record tracingOptions : Type := {
  enabled : bool;
  injectCarrier : bool;
  spanOptions : list StartSpanOption
}.

(** [options] holds two pointers; a pointer is an index into the heap of
    cells of its type, nil is [None]. *)
Record options : Type := {
  operationName : string;
  tracingOptionsPtr : option nat;
  retryPolicyPtr : option nat
}.

Record Heap : Type := {
  tracingCells : list tracingOptions;
  policyCells : list retryPolicy
}.

Definition emptyHeap : Heap := {| tracingCells := []; policyCells := [] |}.

(** [&tracingOptions{...}] and [&retryPolicy{...}]: a fresh cell at the end. *)
Definition newTracing (h : Heap) (t : tracingOptions) : nat * Heap :=
  (length (tracingCells h),
   {| tracingCells := tracingCells h ++ [t]; policyCells := policyCells h |}).

Definition newPolicy (h : Heap) (p : retryPolicy) : nat * Heap :=
  (length (policyCells h),
   {| tracingCells := tracingCells h; policyCells := policyCells h ++ [p] |}).

(** A write through a [*tracingOptions]. *)
Definition storeTracing (h : Heap) (p : nat) (f : tracingOptions -> tracingOptions) : Heap :=
  {| tracingCells := alter f p (tracingCells h); policyCells := policyCells h |}.

Definition derefTracing (h : Heap) (p : option nat) : option tracingOptions :=
  match p with
  | None => None
  | Some i => tracingCells h !! i
  end.

Definition derefPolicy (h : Heap) (p : option nat) : option retryPolicy :=
  match p with
  | None => None
  | Some i => policyCells h !! i
  end.

Definition stdBackOffExponentialFactor : Duration := 1 * Millisecond.
Definition stdBackOffJitterDeviation : Q := (1 # 4)%Q.
Definition defaultReqTimeout : Duration := 5 * Second.
Definition defaultMaxRetries : N := 10%N.

Definition StandardBackOffStrategy (expFactor : Duration) (generator : Rand)
    (stdDeviation : Q) : Strategy :=
  BackoffWithJitter (BinaryExponential expFactor)
                    (NormalDistribution generator stdDeviation).

(** The interface [Option] has one unexported method, so its values are the
    [funcOption]s of the four exported constructors.  Each constructor below
    stands for the closure its Go namesake returns, and [apply] runs that
    closure on [*options] and the generator. *)
Inductive Option : Type :=
| WithRetryPolicy (requestTimeout : Duration) (maxRetries : N) (strategies : list Strategy)
| WithStandardRetryPolicy (requestTimeout : Duration) (maxRetries : N)
| WithTracingOptions (enabled : bool) (operationName : string)
                     (spanOptions : list StartSpanOption)
| WithSpanCarrierInjected.

Definition apply (fo : Option) (g : Rand) (oh : options * Heap) : options * Heap :=
  let '(o, h) := oh in
  match fo with
  | WithRetryPolicy timeout maxRetries strategies =>
      let retryStrategies := [Limit maxRetries] ++ strategies in
      let '(p, h') := newPolicy h {| requestTimeout := timeout;
                                     retryStrategies := retryStrategies |} in
      ({| operationName := operationName o;
          tracingOptionsPtr := tracingOptionsPtr o;
          retryPolicyPtr := Some p |}, h')
  | WithStandardRetryPolicy timeout maxRetries =>
      let '(p, h') :=
        newPolicy h {| requestTimeout := timeout;
                       retryStrategies :=
                         [Limit maxRetries;
                          StandardBackOffStrategy stdBackOffExponentialFactor g
                                                  stdBackOffJitterDeviation] |} in
      ({| operationName := operationName o;
          tracingOptionsPtr := tracingOptionsPtr o;
          retryPolicyPtr := Some p |}, h')
  | WithTracingOptions en name sopts =>
      match tracingOptionsPtr o with
      | None =>
          let '(p, h') := newTracing h {| enabled := en; injectCarrier := false;
                                          spanOptions := sopts |} in
          ({| operationName := name;
              tracingOptionsPtr := Some p;
              retryPolicyPtr := retryPolicyPtr o |}, h')
      | Some p =>
          ({| operationName := name;
              tracingOptionsPtr := Some p;
              retryPolicyPtr := retryPolicyPtr o |},
           storeTracing h p (fun t => {| enabled := en;
                                         injectCarrier := injectCarrier t;
                                         spanOptions := sopts |}))
      end
  | WithSpanCarrierInjected =>
      match tracingOptionsPtr o with
      | None =>
          let '(p, h') := newTracing h {| enabled := false; injectCarrier := true;
                                          spanOptions := [] |} in
          ({| operationName := operationName o;
              tracingOptionsPtr := Some p;
              retryPolicyPtr := retryPolicyPtr o |}, h')
      | Some p =>
          (o, storeTracing h p (fun t => {| enabled := enabled t;
                                            injectCarrier := true;
                                            spanOptions := spanOptions t |}))
      end
  end.

(** [for _, o := range opts { o.apply(&x, generator) }] *)
Definition applyAll (opts : list Option) (g : Rand) (oh : options * Heap) : options * Heap :=
  fold_left (fun acc fo => apply fo g acc) opts oh.

(** ** client.go: the client and its construction *)

Inductive HttpClient : Type := DefaultClient.

Record Client : Type := {
  clientOptions : options;
  generator : Rand;
  client : HttpClient
}.

(** [New]; [now] is the clock reading that seeds the generator. *)
Definition New (now : Z) (opts : list Option) (h : Heap) : Client * Heap :=
  let generator := NewRand now in
  let clientOpts := {| operationName := ""; tracingOptionsPtr := None;
                       retryPolicyPtr := None |} in
  let '(clientOpts, h) := applyAll opts generator (clientOpts, h) in
  let '(clientOpts, h) :=
    match retryPolicyPtr clientOpts with
    | None => apply (WithStandardRetryPolicy defaultReqTimeout defaultMaxRetries)
                    generator (clientOpts, h)
    | Some _ => (clientOpts, h)
    end in
  ({| clientOptions := clientOpts; generator := generator; client := DefaultClient |}, h).

(** ** Requests, responses and the outside world *)

(** A value implementing [io.ReadSeekCloser]: either a caller's own type,
    described by what its k-th [Seek(0, io.SeekStart)] answers, or the
    package's [BytesReadSeekCloser] over a byte slice, whose rewind to offset
    zero cannot fail and whose [Close] does nothing. *)
Inductive ReadSeekCloser : Type :=
| UserReadSeekCloser (seekResult : nat -> option error)
| BytesReadSeekCloser (b : list Byte.byte).

Definition NewBytesSeekReader (b : list Byte.byte) : ReadSeekCloser :=
  BytesReadSeekCloser b.

Definition Seek (rsc : ReadSeekCloser) (k : nat) : option error :=
  match rsc with
  | UserReadSeekCloser seekResult => seekResult k
  | BytesReadSeekCloser _ => None
  end.

(** [req.Body] as the caller supplies it: a seekable value, or a plain
    [io.ReadCloser] described by what [io.ReadAll] obtains from it. *)
Inductive RequestBody : Type :=
| SeekableBody (rsc : ReadSeekCloser)
| StreamBody (readAll : error + list Byte.byte).

Record Span : Type := {
  spanOperation : string;
  spanStartOptions : list StartSpanOption
}.

Inductive Context : Type :=
| CallerContext (id : nat)
| ContextWithSpan (parent : Context) (sp : Span)
| ContextWithTimeout (parent : Context) (timeout : Duration) (timer : nat).

(** The [context.CancelFunc] of the timer-th timeout context. *)
Inductive CancelFunc : Type := CancelTimer (timer : nat).

Record Request : Type := {
  Method : string;
  URL : string;
  Header : list (string * string);
  Body : option RequestBody;
  Ctx : Context
}.

(** What reaches the transport: [req.WithContext(aCtx)] with the replay
    source behind [io.NopCloser] as its body. *)
Record OutgoingRequest : Type := {
  outMethod : string;
  outURL : string;
  outHeader : list (string * string);
  outBody : option ReadSeekCloser;
  outCtx : Context
}.

(** An [io.ReadCloser] used as response body: the transport's own, or the
    package's wrapper around one. *)
Inductive ReadCloser : Type :=
| NetworkBody (id : nat)
| responseBodyReadCloser (readCloser : ReadCloser) (cancelFunc : option CancelFunc).

Record Response : Type := {
  StatusCode : Z;
  RespBody : option ReadCloser
}.

(** A response as the transport produces it; its body, when it has one, is
    a network body. *)
Record TransportResponse : Type := {
  transportStatus : Z;
  transportBody : option nat
}.

Definition received (r : TransportResponse) : Response :=
  {| StatusCode := transportStatus r;
     RespBody := option_map NetworkBody (transportBody r) |}.

(** The two shapes [http.Client.Do] can answer with: no error, and then the
    response and its body are non-nil; or an error, with a response that is
    nil except when a redirect policy failed. *)
Inductive TransportResult : Type :=
| Responded (code : Z) (body : nat)
| Failed (resp : option TransportResponse) (err : error).

Definition isFailed (r : TransportResult) : bool :=
  match r with
  | Failed _ _ => true
  | Responded _ _ => false
  end.

Record World : Type := {
  (** the k-th call of [c.client.Do] *)
  roundTrip : nat -> OutgoingRequest -> TransportResult;
  (** what the overall context reports when the loop is about to make
      attempt number k: nil while it is live *)
  contextErr : N -> option error;
  (** [GlobalTracer().Inject]: an error, or the carrier headers written *)
  tracerInject : Span -> error + list (string * string);
  (** what closing a network body answers *)
  bodyClose : nat -> option error;
  (** [url.Parse] inside [http.NewRequestWithContext] *)
  parseURL : string -> option error
}.

Inductive Event : Type :=
| EvReadAll
| EvCloseOriginalBody
| EvStartSpan (sp : Span)
| EvInject (sp : Span)
| EvLogAttempt (attempt : Z)
| EvSeek
| EvWithTimeout (timer : nat) (timeout : Duration)
| EvSend (aReq : OutgoingRequest)
| EvCancel (c : CancelFunc)
| EvCloseBody (id : nat)
| EvTagAttemptCount (n : Z)
| EvLogError (err : error)
| EvTagError
| EvTagStatusCode (code : Z)
| EvCloseRequestBody.

(** The variables of one call of [Do] that its closure and its tail share,
    the request's header map, and the trace (most recent event first).
    [seeks], [sends] and [timers] count the calls made so far and index the
    world's answers. *)
Record DoState : Type := {
  trace : list Event;
  resp : option Response;
  attemptCount : Z;
  header : list (string * string);
  seeks : nat;
  sends : nat;
  timers : nat
}.

Definition emit (e : Event) (st : DoState) : DoState :=
  {| trace := e :: trace st; resp := resp st; attemptCount := attemptCount st;
     header := header st; seeks := seeks st; sends := sends st; timers := timers st |}.

Definition startState (req : Request) : DoState :=
  {| trace := []; resp := None; attemptCount := 0; header := Header req;
     seeks := 0; sends := 0; timers := 0 |}.

(** How a call ends: it returns Go's pair, or it panics. *)
Inductive Outcome : Type :=
| Returned (resp : option Response) (err : option error)
| Panicked.

Definition isSend (e : Event) : bool :=
  match e with EvSend _ => true | _ => false end.

Definition isCancel (c : CancelFunc) (e : Event) : bool :=
  match e, c with
  | EvCancel (CancelTimer i), CancelTimer j => Nat.eqb i j
  | _, _ => false
  end.

Definition isSpanEvent (e : Event) : bool :=
  match e with
  | EvStartSpan _ | EvInject _ | EvLogAttempt _ | EvTagAttemptCount _
  | EvLogError _ | EvTagError | EvTagStatusCode _ => true
  | _ => false
  end.

Fixpoint countEvents (p : Event -> bool) (tr : list Event) : nat :=
  match tr with
  | [] => 0%nat
  | e :: tr => ((if p e then 1 else 0) + countEvents p tr)%nat
  end.

(** Number of transport invocations recorded in a trace. *)
Definition transportCalls (tr : list Event) : nat := countEvents isSend tr.

(** ** The retry library (github.com/kamilsk/retry/v5) *)

(** The error [retry.Do] starts from, so that a loop that makes no attempt
    still reports one. *)
Definition internal : error := RetryError "have no any try".

(** Strip the wrapper layers of an error, as the loop does before it shows
    the error to the strategies. *)
Fixpoint unwrapError (e : error) : option error :=
  match e with
  | WithMessage cause _ => unwrapError cause
  | RetryError _ => None
  | _ => Some e
  end.

Definition unwrap (err : option error) : option error :=
  match err with
  | None => None
  | Some e => unwrapError e
  end.

Section AttemptLoop.

Variable w : World.

(** Modelled from the spec: [retry.Do] is a function of the retry library,
    which is not under src/.  The spec (4.4, 6) fixes its protocol: attempts
    run one after the other; the strategies are consulted in order with the
    attempt count and their combined verdict is "continue" or "stop"; a
    cancelled overall context ends the loop with the context's error, which
    takes precedence; when the strategies stop the loop the most recent error
    is returned.  As in the library, the strategies are asked before every
    attempt, the first included (stopping at the first refusal), with the
    unwrapped previous error, and the loop starts from a non-nil error of its
    own, so that a loop that makes no attempt still returns an error.  [fuel]
    bounds the number of iterations of an otherwise unbounded loop; [None] is
    "fuel exhausted". *)
Fixpoint retryLoop (fuel : nat) (strategies : list Strategy)
    (action : DoState -> option error * DoState)
    (attempt : N) (err : option error) (st : DoState)
    : option (option error * DoState) :=
  match fuel with
  | O => None
  | S fuel =>
      let core := unwrap err in
      let should :=
        forallb (fun s => runStrategy s (contextErr w attempt) attempt core) strategies in
      match contextErr w attempt with
      | Some ctxErr => Some (Some ctxErr, st)
      | None =>
          if should then
            let '(err, st) := action st in
            match err with
            | None => Some (None, st)
            | Some _ => retryLoop fuel strategies action (uint_succ attempt) err st
            end
          else Some (err, st)
      end
  end.

Definition retry_Do (fuel : nat) (action : DoState -> option error * DoState)
    (strategies : list Strategy) (st : DoState) : option (option error * DoState) :=
  retryLoop fuel strategies action 0%N (Some internal) st.

(** ** client.go: one call *)

(** [responseBodyReadCloser.Close] (and the [Close] of a network body): the
    deferred [cancelFunc] runs after the inner [Close] has answered. *)
Fixpoint Close (rc : ReadCloser) (tr : list Event) : option error * list Event :=
  match rc with
  | NetworkBody id => (bodyClose w id, EvCloseBody id :: tr)
  | responseBodyReadCloser readCloser cancelFunc =>
      let '(err, tr) := Close readCloser tr in
      match cancelFunc with
      | Some c => (err, EvCancel c :: tr)
      | None => (err, tr)
      end
  end.

(** [getRequestBodyReadSeekCloser]: a body that already is an
    [io.ReadSeekCloser] is returned as it is; any other body is read to the
    end and closed (the deferred [req.Body.Close()]), and a read error is
    returned, or else the bytes behind a [BytesReadSeekCloser]. *)
Definition getRequestBodyReadSeekCloser (body : RequestBody) (st : DoState)
    : (error + ReadSeekCloser) * DoState :=
  match body with
  | SeekableBody rsc => (inr rsc, st)
  | StreamBody (inl err) => (inl err, emit EvCloseOriginalBody (emit EvReadAll st))
  | StreamBody (inr bodyBytes) =>
      (inr (NewBytesSeekReader bodyBytes), emit EvCloseOriginalBody (emit EvReadAll st))
  end.

(** [startAndInjectSpan]: nothing at all when the tracing options are nil or
    not enabled; otherwise a span named after the operation, tagged with
    method and URL, is started from the request's context and, if the carrier
    is to be injected, the tracer writes it into the request header or
    reports an error, in which case no span and no context are returned. *)
Definition startAndInjectSpan (req : Request) (opts : options) (h : Heap) (st : DoState)
    : (option Span * option Context * option error) * DoState :=
  match derefTracing h (tracingOptionsPtr opts) with
  | None => ((None, None, None), st)
  | Some tracingOpts =>
      if negb (enabled tracingOpts) then ((None, None, None), st)
      else
        let spanOpts :=
          spanOptions tracingOpts
            ++ [Tags [("http.method", Method req); ("http.url", URL req)]] in
        let opName := "HTTP Egress" in
        let opName :=
          if String.eqb (operationName opts) "" then opName
          else String.append opName (String.append " - " (operationName opts)) in
        let sp := {| spanOperation := opName; spanStartOptions := spanOpts |} in
        let ctx := ContextWithSpan (Ctx req) sp in
        let st := emit (EvStartSpan sp) st in
        if injectCarrier tracingOpts then
          let st := emit (EvInject sp) st in
          match tracerInject w sp with
          | inl err => ((None, None, Some err), st)
          | inr carrier =>
              ((Some sp, Some ctx, None),
               {| trace := trace st; resp := resp st; attemptCount := attemptCount st;
                  header := carrier ++ header st;
                  seeks := seeks st; sends := sends st; timers := timers st |})
          end
        else ((Some sp, Some ctx, None), st)
  end.

(** The closure [action] of [Do], over the variables it captures: log the
    attempt on the span, rewind the body (a failure ends the attempt), derive
    the timeout context when the request timeout is not zero, call the
    transport, count the attempt, and either cancel and report the error or
    wrap the response body together with the cancellation function. *)
Definition action (req : Request) (reqBody : option ReadSeekCloser) (sp : option Span)
    (policy : retryPolicy) (aCtx : Context) (st : DoState) : option error * DoState :=
  let st := match sp with
            | Some _ => emit (EvLogAttempt (attemptCount st)) st
            | None => st
            end in
  let '(aErr, st) :=
    match reqBody with
    | Some rsc =>
        (Seek rsc (seeks st),
         {| trace := EvSeek :: trace st; resp := resp st; attemptCount := attemptCount st;
            header := header st; seeks := S (seeks st); sends := sends st;
            timers := timers st |})
    | None => (None, st)
    end in
  match aErr with
  | Some e => (Some e, st)
  | None =>
      let '(aCtx, cancelFunc, st) :=
        if negb (requestTimeout policy =? 0) then
          (ContextWithTimeout aCtx (requestTimeout policy) (timers st),
           Some (CancelTimer (timers st)),
           {| trace := EvWithTimeout (timers st) (requestTimeout policy) :: trace st;
              resp := resp st; attemptCount := attemptCount st; header := header st;
              seeks := seeks st; sends := sends st; timers := S (timers st) |})
        else (aCtx, None, st) in
      let aReq := {| outMethod := Method req; outURL := URL req; outHeader := header st;
                     outBody := reqBody; outCtx := aCtx |} in
      let result := roundTrip w (sends st) aReq in
      let st := {| trace := EvSend aReq :: trace st; resp := resp st;
                   attemptCount := uint32_succ (attemptCount st); header := header st;
                   seeks := seeks st; sends := S (sends st); timers := timers st |} in
      match result with
      | Failed r aErr =>
          let st := {| trace := trace st; resp := option_map received r;
                       attemptCount := attemptCount st;
                       header := header st; seeks := seeks st; sends := sends st;
                       timers := timers st |} in
          let st := match cancelFunc with
                    | Some c => emit (EvCancel c) st
                    | None => st
                    end in
          (Some aErr, st)
      | Responded code body =>
          (None,
           {| trace := trace st;
              resp := Some {| StatusCode := code;
                              RespBody := Some (responseBodyReadCloser (NetworkBody body)
                                                                        cancelFunc) |};
              attemptCount := attemptCount st; header := header st;
              seeks := seeks st; sends := sends st; timers := timers st |})
      end
  end.

(** The part of [Do] after the body has been captured: span setup, the
    retry loop, the tags, and the two ways out (the error with a nil
    response, after closing the body of a response still held; or the
    response with a nil error).  [Panicked] stands for the nil dereferences
    Go would run into: of [requestOpts.retryPolicy] when no policy is
    installed, and of [resp] for the status tag when the loop returned no
    error without a response.  The deferred [reqBody.Close()] is added by
    [Do] itself. *)
Definition doAttempts (fuel : nat) (req : Request) (requestOpts : options) (h : Heap)
    (reqBody : option ReadSeekCloser) (st : DoState) : option (Outcome * DoState) :=
  let '((sp, spCtx, err), st) := startAndInjectSpan req requestOpts h st in
  match err with
  | Some _ =>
      Some (Returned None (Wrap err "error starting and injecting tracing span"), st)
  | None =>
      let ctx := match spCtx with Some c => c | None => Ctx req end in
      match derefPolicy h (retryPolicyPtr requestOpts) with
      | None => Some (Panicked, st)
      | Some policy =>
          match retry_Do fuel (action req reqBody sp policy ctx) (retryStrategies policy) st with
          | None => None
          | Some (err, st) =>
              let st := match sp with
                        | Some _ => emit (EvTagAttemptCount (attemptCount st)) st
                        | None => st
                        end in
              match err with
              | Some e =>
                  let st := match sp with
                            | Some _ => emit EvTagError (emit (EvLogError e) st)
                            | None => st
                            end in
                  let st :=
                    match resp st with
                    | Some {| RespBody := Some body |} =>
                        {| trace := snd (Close body (trace st)); resp := resp st;
                           attemptCount := attemptCount st; header := header st;
                           seeks := seeks st; sends := sends st; timers := timers st |}
                    | _ => st
                    end in
                  Some (Returned None (Some e), st)
              | None =>
                  match sp, resp st with
                  | Some _, None => Some (Panicked, st)
                  | Some _, Some r =>
                      Some (Returned (resp st) None,
                            emit (EvTagStatusCode (StatusCode r mod 2 ^ 16)) st)
                  | None, _ => Some (Returned (resp st) None, st)
                  end
              end
          end
      end
  end.

(** [Do]: merge the options of the call over a copy of the client's, capture
    the body (its error ends the call), run the attempts, and close the
    captured body on the way out.  The result carries the final state of the
    call and the heap as the options left it. *)
Definition Do (fuel : nat) (c : Client) (req : Request) (opts : list Option) (h : Heap)
    : option (Outcome * DoState * Heap) :=
  let '(requestOpts, h) := applyAll opts (generator c) (clientOptions c, h) in
  let st := startState req in
  match Body req with
  | Some body =>
      match getRequestBodyReadSeekCloser body st with
      | (inl err, st) =>
          Some (Returned None (Wrap (Some err) "error preparing request body"), st, h)
      | (inr reqBody, st) =>
          match doAttempts fuel req requestOpts h (Some reqBody) st with
          | None => None
          | Some (out, st) => Some (out, emit EvCloseRequestBody st, h)
          end
      end
  | None =>
      match doAttempts fuel req requestOpts h None st with
      | None => None
      | Some (out, st) => Some (out, st, h)
      end
  end.

(** [http.NewRequestWithContext] for the three fixed methods: it fails on a
    nil context and on a URL that does not parse. *)
Definition NewRequestWithContext (ctx : option Context) (method url : string)
    (body : option RequestBody) : error + Request :=
  match ctx with
  | None => inl (ErrorString "net/http: nil Context")
  | Some ctx =>
      match parseURL w url with
      | Some err => inl err
      | None => inr {| Method := method; URL := url; Header := []; Body := body;
                       Ctx := ctx |}
      end
  end.

(** The state of a call that ended before there was a request. *)
Definition noRequest : DoState :=
  {| trace := []; resp := None; attemptCount := 0; header := [];
     seeks := 0; sends := 0; timers := 0 |}.

(** [Get], [Head] and [Post]: build the request, wrap a failure to do so, and
    forward to [Do]. *)
Definition Get (fuel : nat) (c : Client) (ctx : option Context) (url : string)
    (opts : list Option) (h : Heap) : option (Outcome * DoState * Heap) :=
  match NewRequestWithContext ctx "GET" url None with
  | inl err => Some (Returned None (Wrap (Some err) "error creating request"), noRequest, h)
  | inr req => Do fuel c req opts h
  end.

Definition Head (fuel : nat) (c : Client) (ctx : option Context) (url : string)
    (opts : list Option) (h : Heap) : option (Outcome * DoState * Heap) :=
  match NewRequestWithContext ctx "HEAD" url None with
  | inl err => Some (Returned None (Wrap (Some err) "error creating request"), noRequest, h)
  | inr req => Do fuel c req opts h
  end.

Definition Post (fuel : nat) (c : Client) (ctx : option Context) (url : string)
    (body : option RequestBody) (opts : list Option) (h : Heap)
    : option (Outcome * DoState * Heap) :=
  match NewRequestWithContext ctx "POST" url body with
  | inl err => Some (Returned None (Wrap (Some err) "error creating request"), noRequest, h)
  | inr req => Do fuel c req opts h
  end.

End AttemptLoop.

(** ** Predicates on options *)

(** A retry policy that starts with a maximum-attempt-count strategy. *)
Definition limited (pol : retryPolicy) : Prop :=
  exists n rest, retryStrategies pol = Limit n :: rest.

(** The policy pointer is nil or leads to a limited policy. *)
Definition limitedOrNil (oh : options * Heap) : Prop :=
  retryPolicyPtr (fst oh) = None \/
  exists pol, derefPolicy (snd oh) (retryPolicyPtr (fst oh)) = Some pol /\ limited pol.

Definition isRetryOption (fo : Option) : bool :=
  match fo with
  | WithRetryPolicy _ _ _ | WithStandardRetryPolicy _ _ => true
  | _ => false
  end.

(** An option that switches tracing on. *)
Definition enablesTracing (fo : Option) : bool :=
  match fo with
  | WithTracingOptions true _ _ => true
  | _ => false
  end.

Definition tracingEnabled (o : options) (h : Heap) : bool :=
  match derefTracing h (tracingOptionsPtr o) with
  | Some t => enabled t
  | None => false
  end.

(** ** Vocabulary of the statements *)

(** The retry policy a call runs under, once its options are merged. *)
Definition effectivePolicy (c : Client) (opts : list Option) (h : Heap) : option retryPolicy :=
  derefPolicy (snd (applyAll opts (generator c) (clientOptions c, h)))
              (retryPolicyPtr (fst (applyAll opts (generator c) (clientOptions c, h)))).

(** The tracing configuration a call runs under. *)
Definition effectiveTracing (c : Client) (opts : list Option) (h : Heap) : option tracingOptions :=
  derefTracing (snd (applyAll opts (generator c) (clientOptions c, h)))
               (tracingOptionsPtr (fst (applyAll opts (generator c) (clientOptions c, h)))).

(** The options a call runs under, and the span its setup starts. *)
Definition requestOptions (c : Client) (opts : list Option) (h : Heap) : options :=
  fst (applyAll opts (generator c) (clientOptions c, h)).

Definition callSpan (req : Request) (ro : options) (t : tracingOptions) : Span :=
  {| spanOperation :=
       if String.eqb (operationName ro) "" then "HTTP Egress"
       else String.append "HTTP Egress" (String.append " - " (operationName ro));
     spanStartOptions :=
       spanOptions t ++ [Tags [("http.method", Method req); ("http.url", URL req)]] |}.

(** Exactly one of the two returned values is non-nil. *)
Definition exactlyOneNonNil (r : option Response) (e : option error) : Prop :=
  (r = None /\ e <> None) \/ (r <> None /\ e = None).

Definition closedLast (w : World) (st : DoState) : Prop :=
  forall rs body, resp st = Some rs -> RespBody rs = Some body ->
    exists tr0, trace st = snd (Close w body tr0).

(** The response the call still holds, if it has a body, was closed as the
    last action of the call (only the deferred close of the request body may
    follow). *)
Definition heldBodyClosed (w : World) (st : DoState) : Prop :=
  forall rs body, resp st = Some rs -> RespBody rs = Some body ->
    exists tr0, trace st = snd (Close w body tr0)
             \/ trace st = EvCloseRequestBody :: snd (Close w body tr0).

(** A request body that can be captured and then rewound before every
    attempt: there is none, or it is seekable and every rewind succeeds, or
    it is a stream that [io.ReadAll] reads without error. *)
Definition replayable (b : option RequestBody) : Prop :=
  match b with
  | None => True
  | Some (SeekableBody rsc) => forall k, Seek rsc k = None
  | Some (StreamBody (inl _)) => False
  | Some (StreamBody (inr _)) => True
  end.

(** The body can be captured: reading it, when it has to be read, succeeds. *)
Definition readable (b : option RequestBody) : Prop :=
  forall err, b <> Some (StreamBody (inl err)).

(** The replay source, when there is one, answers every rewind. *)
Definition rewinds (rb : option ReadSeekCloser) : Prop :=
  forall rsc k, rb = Some rsc -> Seek rsc k = None.

(** [k] calls of [Close] on the same body, one after the other. *)
Fixpoint closeTimes (w : World) (k : nat) (rc : ReadCloser) (tr : list Event) : list Event :=
  match k with
  | O => tr
  | S k => closeTimes w k rc (snd (Close w rc tr))
  end.

(** An event of a call that never derives a timeout context: a transport
    call under [parent], and neither a timeout context nor a cancellation. *)
Definition untimedUnder (parent : Context) (e : Event) : Prop :=
  match e with
  | EvSend aReq => outCtx aReq = parent
  | EvWithTimeout _ _ | EvCancel _ => False
  | _ => True
  end.

(** A response body that carries no cancellation function. *)
Definition carriesNoCancel (rc : ReadCloser) : Prop :=
  exists b, rc = NetworkBody b \/ rc = responseBodyReadCloser (NetworkBody b) None.

Definition untimedState (parent : Context) (st : DoState) : Prop :=
  Forall (untimedUnder parent) (trace st)
  /\ (forall rs body, resp st = Some rs -> RespBody rs = Some body -> carriesNoCancel body).

(** No cancellation function of a timer still to be created has been
    invoked. *)
Definition cancelsAreOld (st : DoState) : Prop :=
  forall i, (timers st <= i)%nat -> countEvents (isCancel (CancelTimer i)) (trace st) = 0%nat.

(** ** Sample worlds and requests *)

(** A transport that refuses every request; nothing else goes wrong. *)
Definition refusingWorld : World :=
  {| roundTrip := fun _ _ => Failed None (ErrorString "connection refused");
     contextErr := fun _ => None;
     tracerInject := fun _ => inr [("mockpfx-ids-traceid", "1")];
     bodyClose := fun _ => None;
     parseURL := fun _ => None |}.

(** A transport whose redirect policy fails: an error together with a
    response whose body is network body 7. *)
Definition redirectingWorld : World :=
  {| roundTrip := fun _ _ =>
       Failed (Some {| transportStatus := 302; transportBody := Some 7%nat |})
              (ErrorString "stopped after redirect");
     contextErr := fun _ => None;
     tracerInject := fun _ => inr [];
     bodyClose := fun _ => None;
     parseURL := fun _ => None |}.

(** A transport that answers every request with 204 and a fresh body. *)
Definition respondingWorld : World :=
  {| roundTrip := fun k _ => Responded 204 k;
     contextErr := fun _ => None;
     tracerInject := fun _ => inr [("mockpfx-ids-traceid", "1")];
     bodyClose := fun _ => None;
     parseURL := fun _ => None |}.

(** The server of the retry tests: it lets the first attempt run into the
    request timeout and answers the next ones. *)
Definition slowFirstWorld : World :=
  {| roundTrip := fun k _ =>
       if Nat.eqb k 0
       then Failed None (WithMessage DeadlineExceeded "Post: context deadline exceeded")
       else Responded 204 k;
     contextErr := fun _ => None;
     tracerInject := fun _ => inr [("mockpfx-ids-traceid", "1")];
     bodyClose := fun _ => None;
     parseURL := fun _ => None |}.

(** The server of the deadline test: every attempt runs into the request
    timeout, and the caller's own deadline has passed when the loop is about
    to make the sixth attempt. *)
Definition deadlineWorld : World :=
  {| roundTrip := fun _ _ =>
       Failed None (WithMessage DeadlineExceeded "Get: context deadline exceeded");
     contextErr := fun a => if (a <? 5)%N then None else Some DeadlineExceeded;
     tracerInject := fun _ => inr [];
     bodyClose := fun _ => None;
     parseURL := fun _ => None |}.

(** A client built with tracing switched off, and the heap it lives in. *)
Definition untracedClient : Client * Heap :=
  New 0 [WithTracingOptions false "op" []] emptyHeap.

(** A world whose tracer cannot inject the carrier. *)
Definition brokenTracerWorld : World :=
  {| roundTrip := fun k _ => Responded 204 k;
     contextErr := fun _ => None;
     tracerInject := fun _ => inl (ErrorString "opentracing: Tracer.Inject() failed");
     bodyClose := fun _ => None;
     parseURL := fun _ => None |}.

Definition getRequest : Request :=
  {| Method := "GET"; URL := "http://example.test/"; Header := []; Body := None;
     Ctx := CallerContext 0 |}.

(** A caller's body whose first rewind fails and whose later ones succeed. *)
Definition flakyBody : ReadSeekCloser :=
  UserReadSeekCloser (fun k => if Nat.eqb k 0 then Some (ErrorString "seek failed") else None).

(** A caller's body that can never be rewound. *)
Definition brokenBody : ReadSeekCloser :=
  UserReadSeekCloser (fun _ => Some (ErrorString "seek failed")).

Definition postRequest (body : ReadSeekCloser) : Request :=
  {| Method := "POST"; URL := "http://example.test/"; Header := [];
     Body := Some (SeekableBody body); Ctx := CallerContext 0 |}.

(** ** Vocabulary of the further properties *)

(** The events of a trace that satisfy [p], in the order of the trace. *)
Fixpoint keep (p : Event -> bool) (tr : list Event) : list Event :=
  match tr with
  | [] => []
  | e :: tr => if p e then e :: keep p tr else keep p tr
  end.

(** The events an attempt can record. *)
Definition isAttemptEvent (e : Event) : bool :=
  match e with
  | EvLogAttempt _ | EvSeek | EvWithTimeout _ _ | EvSend _ | EvCancel _ => true
  | _ => false
  end.

(** The events in the life of the request body: reading the original to the
    end, closing the original, closing the captured source. *)
Definition isBodyLifecycle (e : Event) : bool :=
  match e with
  | EvReadAll | EvCloseOriginalBody | EvCloseRequestBody => true
  | _ => false
  end.

(** The tags and logs that record the outcome of a call on its span. *)
Definition isOutcomeTag (e : Event) : bool :=
  match e with
  | EvTagAttemptCount _ | EvLogError _ | EvTagError | EvTagStatusCode _ => true
  | _ => false
  end.

(** The creation of the timeout context with timer [i]. *)
Definition isTimer (i : nat) (e : Event) : bool :=
  match e with
  | EvWithTimeout j _ => Nat.eqb j i
  | _ => false
  end.

(** The replay source [Do] captures from the body of a request, when the
    capture succeeds. *)
Definition captured (b : option RequestBody) : option ReadSeekCloser :=
  match b with
  | Some (SeekableBody rsc) => Some rsc
  | Some (StreamBody (inr bodyBytes)) => Some (NewBytesSeekReader bodyBytes)
  | _ => None
  end.

(** The state of a call once its body has been captured. *)
Definition afterCapture (req : Request) : DoState :=
  match Body req with
  | Some (StreamBody _) => emit EvCloseOriginalBody (emit EvReadAll (startState req))
  | _ => startState req
  end.

(** The deferred close of the captured body. *)
Definition closeDeferred (b : option RequestBody) (st : DoState) : DoState :=
  match b with
  | Some _ => emit EvCloseRequestBody st
  | None => st
  end.

(** The tail of [Do] after the retry loop, as a function of what the loop
    returned. *)
Definition finishCall (w : World) (sp : option Span) (err : option error) (st : DoState)
    : Outcome * DoState :=
  let st := match sp with
            | Some _ => emit (EvTagAttemptCount (attemptCount st)) st
            | None => st
            end in
  match err with
  | Some e =>
      let st := match sp with
                | Some _ => emit EvTagError (emit (EvLogError e) st)
                | None => st
                end in
      let st :=
        match resp st with
        | Some {| RespBody := Some body |} =>
            {| trace := snd (Close w body (trace st)); resp := resp st;
               attemptCount := attemptCount st; header := header st;
               seeks := seeks st; sends := sends st; timers := timers st |}
        | _ => st
        end in
      (Returned None (Some e), st)
  | None =>
      match sp, resp st with
      | Some _, None => (Panicked, st)
      | Some _, Some r =>
          (Returned (resp st) None, emit (EvTagStatusCode (StatusCode r mod 2 ^ 16)) st)
      | None, _ => (Returned (resp st) None, st)
      end
  end.

(** Scanning a trace from the newest event: every transport call has, before
    it in time, the rewind of its own attempt, with nothing but the creation
    of the timeout context in between.  [pending] says that a transport call
    has been seen whose rewind is still to come. *)
Fixpoint rewoundBefore (pending : bool) (tr : list Event) : bool :=
  match tr with
  | [] => negb pending
  | e :: tr =>
      match e with
      | EvSeek => rewoundBefore false tr
      | EvWithTimeout _ _ => rewoundBefore pending tr
      | EvSend _ => if pending then false else rewoundBefore true tr
      | _ => if pending then false else rewoundBefore false tr
      end
  end.

(** What a transport call of the call for [req] must carry. *)
Definition sendCarries (req : Request) (hdr : list (string * string)) (e : Event) : Prop :=
  match e with
  | EvSend aReq =>
      outMethod aReq = Method req /\ outURL aReq = URL req
      /\ outHeader aReq = hdr /\ outBody aReq = captured (Body req)
  | _ => True
  end.

(** The life of the request body that a call must show: a stream is read and
    closed once, and a captured source is closed once, last of all. *)
Definition bodyLifecycle (b : option RequestBody) : list Event :=
  match b with
  | None => []
  | Some (SeekableBody _) => [EvCloseRequestBody]
  | Some (StreamBody (inl _)) => [EvCloseOriginalBody; EvReadAll]
  | Some (StreamBody (inr _)) => [EvCloseRequestBody; EvCloseOriginalBody; EvReadAll]
  end.

(** The header of the request as the call leaves it. *)
Definition headerAfter (w : World) (req : Request) (ro : options) (t : option tracingOptions)
    : list (string * string) :=
  match t with
  | Some t =>
      if enabled t && injectCarrier t then
        match tracerInject w (callSpan req ro t) with
        | inr carrier => carrier ++ Header req
        | inl _ => Header req
        end
      else Header req
  | None => Header req
  end.

(** The outcome tags a traced call must show, newest first. *)
Definition outcomeTags (out : Outcome) (n : Z) : list Event :=
  match out with
  | Returned (Some r) _ => [EvTagStatusCode (StatusCode r mod 2 ^ 16); EvTagAttemptCount n]
  | Returned None (Some e) => [EvTagError; EvLogError e; EvTagAttemptCount n]
  | _ => [EvTagAttemptCount n]
  end.

(** * Properties *)

(** ** The options and the heap *)

Lemma lookup_new_cell {A} (l : list A) (x : A) : (l ++ [x]) !! length l = Some x.
Proof.
  rewrite lookup_app_r by lia. now rewrite Nat.sub_diag.
Qed.

(** Policy cells are never overwritten: an option only appends to them. *)
Lemma apply_policy_cells fo g o h :
  exists more, policyCells (snd (apply fo g (o, h))) = policyCells h ++ more.
Proof.
  destruct fo; simpl.
  - now exists [{| requestTimeout := requestTimeout0;
                   retryStrategies := Limit maxRetries :: strategies |}].
  - eexists; reflexivity.
  - destruct (tracingOptionsPtr o); simpl; exists []; now rewrite app_nil_r.
  - destruct (tracingOptionsPtr o); simpl; exists []; now rewrite app_nil_r.
Qed.

Lemma apply_keeps_policy fo g o h i pol :
  policyCells h !! i = Some pol ->
  policyCells (snd (apply fo g (o, h))) !! i = Some pol.
Proof.
  intros Hi. destruct (apply_policy_cells fo g o h) as [more ->].
  now apply lookup_app_l_Some.
Qed.

Lemma apply_retry_ptr fo g o h :
  isRetryOption fo = false ->
  retryPolicyPtr (fst (apply fo g (o, h))) = retryPolicyPtr o.
Proof.
  destruct fo; simpl; try discriminate; intros _;
    destruct (tracingOptionsPtr o); reflexivity.
Qed.

Lemma apply_limitedOrNil fo g oh : limitedOrNil oh -> limitedOrNil (apply fo g oh).
Proof.
  destruct oh as [o h]. intros H.
  destruct (isRetryOption fo) eqn:Hr.
  - right. destruct fo; try discriminate; simpl.
    + eexists; split; [apply lookup_new_cell | now exists maxRetries, strategies].
    + eexists; split; [apply lookup_new_cell | eexists _, _; reflexivity].
  - unfold limitedOrNil in *; cbn [fst snd] in H.
    destruct H as [H | (pol & Hd & Hl)].
    + left. now rewrite apply_retry_ptr.
    + right. exists pol; split; [| assumption].
      rewrite apply_retry_ptr by assumption.
      unfold derefPolicy in *. destruct (retryPolicyPtr o); [| discriminate].
      now apply apply_keeps_policy.
Qed.

Lemma applyAll_limitedOrNil opts g oh : limitedOrNil oh -> limitedOrNil (applyAll opts g oh).
Proof.
  unfold applyAll. revert oh.
  induction opts as [| fo opts IH]; intros oh H; cbn [fold_left]; [assumption |].
  apply IH. now apply apply_limitedOrNil.
Qed.

Lemma applyAll_retry_ptr opts g o h :
  Forall (fun fo => isRetryOption fo = false) opts ->
  retryPolicyPtr (fst (applyAll opts g (o, h))) = retryPolicyPtr o.
Proof.
  unfold applyAll. revert o h.
  induction opts as [| fo opts IH]; intros o h Hall; cbn [fold_left]; [reflexivity |].
  inversion Hall as [| ? ? Hfo Hrest]; subst.
  pose proof (apply_retry_ptr fo g o h Hfo) as H1.
  destruct (apply fo g (o, h)) as [o1 h1].
  rewrite IH by assumption. exact H1.
Qed.

Lemma applyAll_keeps_policy opts g o h i pol :
  policyCells h !! i = Some pol ->
  policyCells (snd (applyAll opts g (o, h))) !! i = Some pol.
Proof.
  unfold applyAll. revert o h.
  induction opts as [| fo opts IH]; intros o h Hi; cbn [fold_left]; [assumption |].
  pose proof (apply_keeps_policy fo g o h i pol Hi) as H1.
  destruct (apply fo g (o, h)) as [o1 h1]. now apply IH.
Qed.

(** The last retry-policy option of a call decides the policy the call runs
    under. *)
Lemma effectivePolicy_last_retry_option c pre fo post h :
  isRetryOption fo = true ->
  Forall (fun fo' => isRetryOption fo' = false) post ->
  effectivePolicy c (pre ++ fo :: post) h =
    derefPolicy (snd (apply fo (generator c)
                        (applyAll pre (generator c) (clientOptions c, h))))
                (retryPolicyPtr (fst (apply fo (generator c)
                        (applyAll pre (generator c) (clientOptions c, h)))))
  /\ exists pol, effectivePolicy c (pre ++ fo :: post) h = Some pol.
Proof.
  intros Hfo Hpost. unfold effectivePolicy, applyAll.
  rewrite fold_left_app. cbn [fold_left].
  fold (applyAll pre (generator c) (clientOptions c, h)).
  destruct (applyAll pre (generator c) (clientOptions c, h)) as [o1 h1].
  assert (Hnew : exists i pol,
             retryPolicyPtr (fst (apply fo (generator c) (o1, h1))) = Some i
             /\ policyCells (snd (apply fo (generator c) (o1, h1))) !! i = Some pol).
  { destruct fo; try discriminate; cbn; eexists _, _;
      (split; [reflexivity | apply lookup_new_cell]). }
  destruct Hnew as (i & pol & Hptr & Hcell).
  destruct (apply fo (generator c) (o1, h1)) as [o2 h2]; cbn [fst snd] in *.
  fold (applyAll post (generator c) (o2, h2)).
  rewrite (applyAll_retry_ptr post (generator c) o2 h2 Hpost), Hptr.
  cbn [derefPolicy]. rewrite Hcell.
  rewrite (applyAll_keeps_policy post (generator c) o2 h2 i pol Hcell).
  split; [reflexivity | now exists pol].
Qed.

Lemma effectivePolicy_WithRetryPolicy c pre timeout n strategies post h :
  Forall (fun fo => isRetryOption fo = false) post ->
  effectivePolicy c (pre ++ WithRetryPolicy timeout n strategies :: post) h
  = Some {| requestTimeout := timeout; retryStrategies := Limit n :: strategies |}.
Proof.
  intros Hpost.
  destruct (effectivePolicy_last_retry_option c pre (WithRetryPolicy timeout n strategies)
              post h eq_refl Hpost) as [-> _].
  destruct (applyAll pre (generator c) (clientOptions c, h)) as [o1 h1].
  cbn. apply lookup_new_cell.
Qed.

Lemma effectivePolicy_WithStandardRetryPolicy c pre timeout n post h :
  Forall (fun fo => isRetryOption fo = false) post ->
  effectivePolicy c (pre ++ WithStandardRetryPolicy timeout n :: post) h
  = Some {| requestTimeout := timeout;
            retryStrategies :=
              [Limit n; StandardBackOffStrategy stdBackOffExponentialFactor (generator c)
                                                stdBackOffJitterDeviation] |}.
Proof.
  intros Hpost.
  destruct (effectivePolicy_last_retry_option c pre (WithStandardRetryPolicy timeout n)
              post h eq_refl Hpost) as [-> _].
  destruct (applyAll pre (generator c) (clientOptions c, h)) as [o1 h1].
  cbn. apply lookup_new_cell.
Qed.

(** Options that do not switch tracing on keep a disabled (or absent)
    tracing configuration disabled. *)
Lemma apply_keeps_tracing_disabled fo g o h :
  enablesTracing fo = false ->
  tracingEnabled o h = false ->
  tracingEnabled (fst (apply fo g (o, h))) (snd (apply fo g (o, h))) = false.
Proof.
  unfold tracingEnabled, derefTracing.
  destruct fo as [t n ss | t n | en name so |]; simpl; intros Hen Hdis;
    try assumption.
  - destruct en; [discriminate |].
    destruct (tracingOptionsPtr o) as [p |]; simpl.
    + rewrite list_lookup_alter_eq. now destruct (tracingCells h !! p).
    + now rewrite lookup_new_cell.
  - destruct (tracingOptionsPtr o) as [p |] eqn:Hp; simpl.
    + rewrite Hp. rewrite list_lookup_alter_eq.
      now destruct (tracingCells h !! p).
    + now rewrite lookup_new_cell.
Qed.

Lemma applyAll_keeps_tracing_disabled opts g o h :
  Forall (fun fo => enablesTracing fo = false) opts ->
  tracingEnabled o h = false ->
  tracingEnabled (fst (applyAll opts g (o, h))) (snd (applyAll opts g (o, h))) = false.
Proof.
  unfold applyAll. revert o h.
  induction opts as [| fo opts IH]; intros o h Hall Hdis; cbn [fold_left];
    [assumption |].
  inversion Hall as [| ? ? Hfo Hrest]; subst.
  pose proof (apply_keeps_tracing_disabled fo g o h Hfo Hdis) as H1.
  destruct (apply fo g (o, h)) as [o1 h1]. now apply IH.
Qed.

Lemma New_policy now opts h :
  exists pol,
    derefPolicy (snd (New now opts h))
                (retryPolicyPtr (clientOptions (fst (New now opts h)))) = Some pol
    /\ limited pol.
Proof.
  unfold New.
  pose proof (applyAll_limitedOrNil opts (NewRand now)
                ({| operationName := ""; tracingOptionsPtr := None;
                    retryPolicyPtr := None |}, h)) as Hinv.
  destruct (applyAll opts (NewRand now) _) as [o1 h1].
  specialize (Hinv (or_introl eq_refl)).
  destruct (retryPolicyPtr o1) as [p |] eqn:Hp.
  - destruct Hinv as [Hnil | (pol & Hd & Hl)]; cbn [fst snd] in *.
    + congruence.
    + exists pol. cbn [fst snd clientOptions]. rewrite Hp. split; [| assumption].
      now rewrite Hp in Hd.
  - cbn [apply newPolicy fst snd clientOptions retryPolicyPtr derefPolicy policyCells].
    eexists; split; [apply lookup_new_cell | eexists _, _; reflexivity].
Qed.

Lemma New_standard_policy now opts h :
  Forall (fun fo => isRetryOption fo = false) opts ->
  derefPolicy (snd (New now opts h))
              (retryPolicyPtr (clientOptions (fst (New now opts h)))) =
    Some {| requestTimeout := 5000000000;
            retryStrategies :=
              [Limit 10;
               BackoffWithJitter (BinaryExponential 1000000)
                                 (NormalDistribution (NewRand now) (1 # 4)%Q)] |}.
Proof.
  intros Hno. unfold New.
  pose proof (applyAll_retry_ptr opts (NewRand now)
                {| operationName := ""; tracingOptionsPtr := None;
                   retryPolicyPtr := None |} h Hno) as Hptr.
  destruct (applyAll opts (NewRand now) _) as [o1 h1].
  cbn [fst retryPolicyPtr] in Hptr. rewrite Hptr.
  cbn [apply newPolicy fst snd clientOptions retryPolicyPtr derefPolicy policyCells].
  apply lookup_new_cell.
Qed.

(** C9.  Every retry policy the package installs starts with a
    maximum-attempt-count strategy: [WithRetryPolicy] stores
    [Limit maxRetries] in front of the caller's strategies (and
    [WithStandardRetryPolicy] in front of the standard backoff); a client
    built by [New] always points to a policy headed by a [Limit]; when no
    retry-policy option is passed to [New] that policy is the standard one
    (5 s request timeout, [Limit 10], binary exponential backoff of 1 ms with
    normally distributed jitter of deviation 1/4 on the client's generator);
    and per-call options applied on top of a limited policy leave the call
    with a limited policy. *)
Theorem installed_retry_policies_are_limited :
  (forall timeout maxRetries strategies g o h,
      derefPolicy (snd (apply (WithRetryPolicy timeout maxRetries strategies) g (o, h)))
        (retryPolicyPtr (fst (apply (WithRetryPolicy timeout maxRetries strategies) g (o, h))))
      = Some {| requestTimeout := timeout;
                retryStrategies := Limit maxRetries :: strategies |})
  /\ (forall timeout maxRetries g o h,
      derefPolicy (snd (apply (WithStandardRetryPolicy timeout maxRetries) g (o, h)))
        (retryPolicyPtr (fst (apply (WithStandardRetryPolicy timeout maxRetries) g (o, h))))
      = Some {| requestTimeout := timeout;
                retryStrategies :=
                  [Limit maxRetries;
                   BackoffWithJitter (BinaryExponential 1000000)
                                     (NormalDistribution g (1 # 4)%Q)] |})
  /\ (forall now opts h,
      exists pol n rest,
        derefPolicy (snd (New now opts h))
                    (retryPolicyPtr (clientOptions (fst (New now opts h)))) = Some pol
        /\ retryStrategies pol = Limit n :: rest)
  /\ (forall now opts h,
      Forall (fun fo => isRetryOption fo = false) opts ->
      derefPolicy (snd (New now opts h))
                  (retryPolicyPtr (clientOptions (fst (New now opts h)))) =
        Some {| requestTimeout := 5000000000;
                retryStrategies :=
                  [Limit 10;
                   BackoffWithJitter (BinaryExponential 1000000)
                                     (NormalDistribution (NewRand now) (1 # 4)%Q)] |})
  /\ (forall c h opts,
      limitedOrNil (clientOptions c, h) ->
      limitedOrNil (applyAll opts (generator c) (clientOptions c, h))).
Proof.
  repeat split.
  - intros; simpl; apply lookup_new_cell.
  - intros; simpl; apply lookup_new_cell.
  - intros now opts h. destruct (New_policy now opts h) as (pol & Hd & n & rest & Hs).
    now exists pol, n, rest.
  - intros; now apply New_standard_policy.
  - intros; now apply applyAll_limitedOrNil.
Qed.

Lemma installed_retry_policies_are_limited_witness :
  Forall (fun fo => isRetryOption fo = false) [WithTracingOptions true "op" []]
  /\ derefPolicy (snd (New 7 [WithTracingOptions true "op" []] emptyHeap))
       (retryPolicyPtr (clientOptions (fst (New 7 [WithTracingOptions true "op" []] emptyHeap))))
     = Some {| requestTimeout := 5000000000;
               retryStrategies :=
                 [Limit 10;
                  BackoffWithJitter (BinaryExponential 1000000)
                                    (NormalDistribution (NewRand 7) (1 # 4)%Q)] |}
  /\ limitedOrNil (clientOptions (fst (New 7 [] emptyHeap)), snd (New 7 [] emptyHeap))
  /\ limitedOrNil (applyAll [WithSpanCarrierInjected] (generator (fst (New 7 [] emptyHeap)))
                     (clientOptions (fst (New 7 [] emptyHeap)), snd (New 7 [] emptyHeap))).
Proof.
  assert (H1 : Forall (fun fo => isRetryOption fo = false) [WithTracingOptions true "op" []])
    by (repeat constructor).
  assert (H2 : limitedOrNil (clientOptions (fst (New 7 [] emptyHeap)),
                             snd (New 7 [] emptyHeap))).
  { right. eexists; split; [reflexivity | eexists _, _; reflexivity]. }
  destruct installed_retry_policies_are_limited as (_ & _ & _ & Hstd & Hcall).
  split; [exact H1 |].
  split; [exact (Hstd 7 [WithTracingOptions true "op" []] emptyHeap H1) |].
  split; [exact H2 |].
  exact (Hcall (fst (New 7 [] emptyHeap)) (snd (New 7 [] emptyHeap))
               [WithSpanCarrierInjected] H2).
Defined.

(** ** The retry loop, for any action *)

Section LoopFacts.

Variable w : World.
Variable act : DoState -> option error * DoState.

Lemma uint_succ_small (a n : N) :
  (a < n)%N -> (n < uint_modulus)%N -> uint_succ a = (a + 1)%N.
Proof.
  intros Ha Hn. unfold uint_succ. apply N.mod_small. lia.
Qed.

(** One iteration, when the context is live and the strategies agree. *)
Lemma retryLoop_step fuel strategies attempt err st :
  contextErr w attempt = None ->
  forallb (fun s => runStrategy s None attempt (unwrap err)) strategies = true ->
  retryLoop w (S fuel) strategies act attempt err st =
    match fst (act st) with
    | None => Some (None, snd (act st))
    | Some e => retryLoop w fuel strategies act (uint_succ attempt) (Some e) (snd (act st))
    end.
Proof.
  intros Hctx Hs. cbn [retryLoop]. rewrite Hctx, Hs.
  destruct (act st) as [[e |] st1]; reflexivity.
Qed.

(** One iteration, when the context is live and some strategy refuses: the
    loop ends with the error it already holds. *)
Lemma retryLoop_refused fuel strategies attempt err st :
  contextErr w attempt = None ->
  forallb (fun s => runStrategy s None attempt (unwrap err)) strategies = false ->
  retryLoop w (S fuel) strategies act attempt err st = Some (err, st).
Proof.
  intros Hctx Hs. cbn [retryLoop]. now rewrite Hctx, Hs.
Qed.

(** Whatever the action preserves, the loop preserves. *)
Lemma retryLoop_preserves (P : DoState -> Prop) :
  (forall st, P st -> P (snd (act st))) ->
  forall fuel strategies attempt err st r st',
    P st ->
    retryLoop w fuel strategies act attempt err st = Some (r, st') ->
    P st'.
Proof.
  intros Hact fuel strategies.
  induction fuel as [| fuel IH]; intros attempt err st r st' HP Hrun;
    cbn [retryLoop] in Hrun; [discriminate |].
  destruct (contextErr w attempt); [injection Hrun as <- <-; assumption |].
  destruct (forallb _ strategies); [| injection Hrun as <- <-; assumption].
  specialize (Hact st HP).
  destruct (act st) as [[e |] st1]; cbn [snd] in Hact; cbn beta iota in Hrun.
  - exact (IH _ _ _ _ _ Hact Hrun).
  - injection Hrun as <- <-. assumption.
Qed.

(** The loop reports no error only right after an action that reported
    none, run from a state that satisfies whatever the action preserves. *)
Lemma retryLoop_success_inv (P : DoState -> Prop) fuel strategies attempt err st st' :
  (forall st, P st -> P (snd (act st))) ->
  P st ->
  err <> None ->
  retryLoop w fuel strategies act attempt err st = Some (None, st') ->
  exists st0, P st0 /\ act st0 = (None, st').
Proof.
  intros Hact. revert attempt err st.
  induction fuel as [| fuel IH]; intros attempt err st HP Herr Hrun;
    cbn [retryLoop] in Hrun; [discriminate |].
  destruct (contextErr w attempt); [discriminate |].
  destruct (forallb _ strategies); [| injection Hrun as -> _; congruence].
  specialize (Hact st HP).
  destruct (act st) as [[e |] st1] eqn:Hst; cbn beta iota in Hrun; cbn [snd] in Hact.
  - eapply IH; [exact Hact | | eassumption]. discriminate.
  - injection Hrun as <-. now exists st.
Qed.

Lemma retryLoop_success fuel strategies attempt err st st' :
  err <> None ->
  retryLoop w fuel strategies act attempt err st = Some (None, st') ->
  exists st0, act st0 = (None, st').
Proof.
  intros Herr Hrun.
  destruct (retryLoop_success_inv (fun _ => True) fuel strategies attempt err st st')
    as (st0 & _ & H0); auto.
  now exists st0.
Qed.

Section Limited.

Variable n : N.
Variable rest : list Strategy.
Hypothesis n_uint : (n < uint_modulus)%N.
Hypothesis act_calls :
  forall st, (transportCalls (trace (snd (act st))) <= S (transportCalls (trace st)))%nat.

(** Under [Limit n] the loop adds at most [n - attempt] transport calls. *)
Lemma retryLoop_bound fuel : forall attempt err st r st',
  (attempt <= n)%N ->
  retryLoop w fuel (Limit n :: rest) act attempt err st = Some (r, st') ->
  (transportCalls (trace st') <= transportCalls (trace st) + N.to_nat (n - attempt))%nat.
Proof.
  induction fuel as [| fuel IH]; intros attempt err st r st' Hle Hrun;
    cbn [retryLoop] in Hrun; [discriminate |].
  destruct (contextErr w attempt); [injection Hrun as <- <-; lia |].
  cbn [forallb runStrategy] in Hrun.
  destruct (attempt <? n)%N eqn:Hlt; cbn [andb] in Hrun;
    [| injection Hrun as <- <-; lia].
  apply N.ltb_lt in Hlt.
  destruct (forallb _ rest); [| injection Hrun as <- <-; lia].
  pose proof (act_calls st) as Hc.
  destruct (act st) as [[e |] st1]; cbn [snd] in Hc; cbn beta iota in Hrun.
  - rewrite (uint_succ_small attempt n Hlt n_uint) in Hrun.
    apply IH in Hrun; lia.
  - injection Hrun as <- <-. lia.
Qed.

(** Under [Limit n] the loop ends within [n - attempt + 1] iterations. *)
Lemma retryLoop_terminates fuel : forall attempt err st,
  (attempt <= n)%N ->
  (N.to_nat (n - attempt) < fuel)%nat ->
  exists r st', retryLoop w fuel (Limit n :: rest) act attempt err st = Some (r, st').
Proof.
  induction fuel as [| fuel IH]; intros attempt err st Hle Hfuel; [lia |].
  cbn [retryLoop].
  destruct (contextErr w attempt); [eexists _, _; reflexivity |].
  cbn [forallb runStrategy].
  destruct (attempt <? n)%N eqn:Hlt; cbn [andb]; [| eexists _, _; reflexivity].
  apply N.ltb_lt in Hlt.
  destruct (forallb _ rest); [| eexists _, _; reflexivity].
  destruct (act st) as [[e |] st1]; cbn beta iota; [| eexists _, _; reflexivity].
  rewrite (uint_succ_small attempt n Hlt n_uint). apply IH; lia.
Qed.

(** The loop uses up the limit when each of the attempts the limit admits is
    made and fails: while the attempt index is below [n] the context is live
    and the other strategies agree, and the action fails, adding one to a
    count [m] of the state that started level with the attempt index.  The
    loop then ends with an error, with [m] equal to [n]. *)
Lemma retryLoop_exhausts (m : DoState -> nat) fuel : forall attempt err st r st',
  (forall a, (a < n)%N -> contextErr w a = None) ->
  (forall s, In s rest -> forall a e, (a < n)%N -> runStrategy s None a e = true) ->
  (forall st, (m st < N.to_nat n)%nat ->
     exists e, fst (act st) = Some e /\ m (snd (act st)) = S (m st)) ->
  (attempt <= n)%N ->
  m st = N.to_nat attempt ->
  err <> None ->
  retryLoop w fuel (Limit n :: rest) act attempt err st = Some (r, st') ->
  r <> None /\ m st' = N.to_nat n.
Proof.
  induction fuel as [| fuel IH];
    intros attempt err st r st' Hctx Hrest Hact Hle Hm Herr Hrun;
    cbn [retryLoop] in Hrun; [discriminate |].
  destruct (attempt <? n)%N eqn:Hlt.
  - apply N.ltb_lt in Hlt.
    rewrite (Hctx attempt Hlt) in Hrun. cbn [forallb runStrategy] in Hrun.
    assert (Hall : forallb (fun s => runStrategy s None attempt (unwrap err)) rest = true).
    { apply forallb_forall. intros s Hs. now apply Hrest. }
    apply N.ltb_lt in Hlt. rewrite Hlt, Hall in Hrun. cbn [andb] in Hrun.
    apply N.ltb_lt in Hlt.
    destruct (Hact st) as (e & He & Hc); [lia |].
    destruct (act st) as [e1 st1]; cbn [fst snd] in He, Hc; subst e1.
    cbn beta iota in Hrun.
    rewrite (uint_succ_small attempt n Hlt n_uint) in Hrun.
    apply IH in Hrun; try assumption; try discriminate; lia.
  - cbn [forallb runStrategy] in Hrun. rewrite Hlt in Hrun. cbn [andb] in Hrun.
    apply N.ltb_ge in Hlt.
    destruct (contextErr w attempt); injection Hrun as <- <-;
      (split; [congruence || discriminate | lia]).
Qed.

End Limited.

End LoopFacts.

(** ** One attempt *)

Lemma countEvents_app p tr1 tr2 :
  countEvents p (tr1 ++ tr2) = (countEvents p tr1 + countEvents p tr2)%nat.
Proof.
  induction tr1 as [| e tr1 IH]; cbn [countEvents app]; [reflexivity |].
  rewrite IH. lia.
Qed.

(** Closing a body adds no transport call, whatever the body. *)
Lemma Close_transportCalls w rc tr :
  transportCalls (snd (Close w rc tr)) = transportCalls tr.
Proof.
  revert tr. induction rc as [id | rc IH cf]; intros tr; cbn [Close].
  - reflexivity.
  - specialize (IH tr). destruct (Close w rc tr) as [err tr1]; cbn [snd] in *.
    destruct cf; cbn [snd]; assumption.
Qed.

Section ActionFacts.

Variable w : World.
Variable req : Request.
Variable reqBody : option ReadSeekCloser.
Variable sp : option Span.
Variable policy : retryPolicy.
Variable aCtx : Context.

Local Abbreviation act := (action w req reqBody sp policy aCtx).

Local Ltac run_action :=
  unfold action, emit;
  cbn [trace resp attemptCount header seeks sends timers];
  destruct sp; destruct reqBody as [rsc |];
  cbn [trace resp attemptCount header seeks sends timers];
  try destruct (Seek rsc _) eqn:?;
  try destruct (requestTimeout policy =? 0) eqn:?;
  cbn [negb trace resp attemptCount header seeks sends timers];
  try destruct (roundTrip w _ _) eqn:?;
  cbn [fst snd trace resp attemptCount header seeks sends timers].

(** An attempt calls the transport at most once. *)
Lemma action_calls st :
  (transportCalls (trace (snd (act st))) <= S (transportCalls (trace st)))%nat.
Proof.
  run_action; unfold transportCalls; cbn [countEvents isSend]; lia.
Qed.

(** An attempt that reports no error has stored a response whose body is the
    package's wrapper around the network body. *)
Lemma action_success st st' :
  act st = (None, st') ->
  exists code body cf,
    resp st' = Some {| StatusCode := code;
                       RespBody := Some (responseBodyReadCloser (NetworkBody body) cf) |}.
Proof.
  run_action; intros H; try discriminate; injection H as <-;
    cbn [resp]; eexists _, _, _; reflexivity.
Qed.

(** A failed rewind ends the attempt with the rewind error, before any
    timeout context is made and before the transport is called; the stored
    response is left as it was. *)
Lemma action_rewind_failure st rsc e :
  reqBody = Some rsc ->
  Seek rsc (seeks st) = Some e ->
  fst (act st) = Some e
  /\ transportCalls (trace (snd (act st))) = transportCalls (trace st)
  /\ resp (snd (act st)) = resp st
  /\ timers (snd (act st)) = timers st.
Proof.
  intros Hb Hs. unfold action, emit. rewrite Hb.
  destruct sp; cbn [trace resp attemptCount header seeks sends timers];
    rewrite Hs; cbn [fst snd trace resp timers];
    unfold transportCalls; cbn [countEvents isSend]; auto.
Qed.

(** While the transport answers errors, an attempt that rewinds ends with
    the transport's error after exactly one transport call. *)
Lemma action_transport_failure bound st :
  rewinds reqBody ->
  (forall k r, (k < bound)%nat -> isFailed (roundTrip w k r) = true) ->
  (sends st < bound)%nat ->
  exists e, fst (act st) = Some e /\ sends (snd (act st)) = S (sends st).
Proof.
  intros Hrew Hfail Hk.
  run_action;
    try (match goal with
         | H : Seek ?r ?k = Some _ |- _ => rewrite (Hrew r k eq_refl) in H; discriminate
         end);
    try (match goal with
         | H : roundTrip w ?k ?r = Responded _ _ |- _ =>
             pose proof (Hfail k r Hk) as Hf; rewrite H in Hf; discriminate
         end);
    eexists; split; reflexivity.
Qed.

(** The trace records one transport event per transport call. *)
Lemma action_sends_counted st :
  transportCalls (trace st) = sends st ->
  transportCalls (trace (snd (act st))) = sends (snd (act st)).
Proof.
  intros Hc. run_action; unfold transportCalls in *; cbn [countEvents isSend]; lia.
Qed.

End ActionFacts.

(** ** One call *)

Section CallFacts.

Variable w : World.

(** Span setup calls no transport and stores no response. *)
Lemma startAndInjectSpan_frame req o h st :
  transportCalls (trace (snd (startAndInjectSpan w req o h st))) = transportCalls (trace st)
  /\ resp (snd (startAndInjectSpan w req o h st)) = resp st
  /\ sends (snd (startAndInjectSpan w req o h st)) = sends st.
Proof.
  unfold startAndInjectSpan, emit.
  destruct (derefTracing h (tracingOptionsPtr o)) as [t |]; [| auto].
  destruct (enabled t); cbn [negb]; [| auto].
  destruct (injectCarrier t); [| cbn; auto].
  destruct (tracerInject w _); cbn; auto.
Qed.

Lemma doAttempts_returned fuel req ro h rb st r e st' :
  resp st = None ->
  doAttempts w fuel req ro h rb st = Some (Returned r e, st') ->
  exactlyOneNonNil r e /\ (e <> None -> closedLast w st').
Proof.
  intros Hresp. unfold doAttempts.
  destruct (startAndInjectSpan_frame req ro h st) as (_ & Hr1 & _).
  destruct (startAndInjectSpan w req ro h st) as [[[sp spCtx] err] st1].
  cbn [snd] in Hr1. rewrite Hresp in Hr1.
  destruct err as [e0 |]; cbn beta iota.
  - intros H; injection H as <- <- <-. split.
    + left; split; [reflexivity | discriminate].
    + intros _ rs body Hrs. congruence.
  - destruct (derefPolicy h (retryPolicyPtr ro)) as [policy |]; [| discriminate].
    destruct (retry_Do _ _ _ _ _) as [[err2 st2] |] eqn:Hloop; [| discriminate].
    destruct err2 as [e2 |].
    + intros H; injection H as <- <- <-. split.
      * left; split; [reflexivity | discriminate].
      * intros _ rs body Hrs Hbody.
        destruct sp; unfold emit in *;
          cbn [resp trace attemptCount header seeks sends timers] in *;
          destruct (resp st2) as [[code [b |]] |] eqn:Hheld;
          cbn [resp trace RespBody] in *; try congruence;
          try rewrite Hheld in Hrs;
          injection Hrs as <-; cbn [RespBody] in Hbody; try congruence;
          injection Hbody as <-; eexists; reflexivity.
    + apply retryLoop_success in Hloop; [| discriminate].
      destruct Hloop as [st0 Hact].
      apply action_success in Hact. destruct Hact as (code & body & cf & Hr2).
      destruct sp; unfold emit; cbn [resp]; rewrite Hr2; intros H;
        injection H as <- <- <-;
        (split; [right; split; [discriminate | reflexivity] | congruence]).
Qed.

Lemma Do_returned fuel c req opts h r e st h' :
  Do w fuel c req opts h = Some (Returned r e, st, h') ->
  exactlyOneNonNil r e /\ (e <> None -> heldBodyClosed w st).
Proof.
  unfold Do. destruct (applyAll opts (generator c) (clientOptions c, h)) as [ro h1].
  destruct (Body req) as [body |].
  - destruct (getRequestBodyReadSeekCloser body (startState req)) as [[err | rsc] st0] eqn:Hcap.
    + intros H; injection H as Hr He Hst Hh; subst r e st h'. split.
      * left; split; [reflexivity | discriminate].
      * intros _ rs b Hrs.
        destruct body as [? | [? | ?]]; cbn in Hcap; try discriminate;
          injection Hcap as _ <-; discriminate.
    + destruct (doAttempts _ _ _ _ _ _ _) as [[out st1] |] eqn:Hd; [| discriminate].
      intros H; injection H as -> <- <-.
      apply doAttempts_returned in Hd.
      * destruct Hd as [Hx Hc]. split; [assumption |].
        intros He rs b Hrs Hbody. cbn [emit resp trace] in *.
        destruct (Hc He rs b Hrs Hbody) as [tr0 Ht].
        exists tr0. right. now rewrite Ht.
      * destruct body as [? | [? | ?]]; cbn in Hcap; try discriminate;
          injection Hcap as _ <-; reflexivity.
  - destruct (doAttempts _ _ _ _ _ _ _) as [[out st1] |] eqn:Hd; [| discriminate].
    intros H; injection H as -> <- <-.
    apply doAttempts_returned in Hd; [| reflexivity].
    destruct Hd as [Hx Hc]. split; [assumption |].
    intros He rs b Hrs Hbody.
    destruct (Hc He rs b Hrs Hbody) as [tr0 Ht]. exists tr0. now left.
Qed.

(** Tagging the span and closing the held body call no transport. *)
Lemma doAttempts_calls fuel req ro h rb st out st' policy n rest :
  derefPolicy h (retryPolicyPtr ro) = Some policy ->
  retryStrategies policy = Limit n :: rest ->
  (n < uint_modulus)%N ->
  doAttempts w fuel req ro h rb st = Some (out, st') ->
  (transportCalls (trace st') <= transportCalls (trace st) + N.to_nat n)%nat.
Proof.
  intros Hpol Hstr Hn. unfold doAttempts.
  destruct (startAndInjectSpan_frame req ro h st) as (Hc1 & _ & _).
  destruct (startAndInjectSpan w req ro h st) as [[[sp spCtx] err] st1].
  cbn [snd] in Hc1.
  destruct err as [e0 |]; cbn beta iota.
  - intros H; injection H as _ <-. lia.
  - rewrite Hpol, Hstr. unfold retry_Do.
    destruct (retryLoop _ _ _ _ _ _ _) as [[err2 st2] |] eqn:Hloop; [| discriminate].
    apply retryLoop_bound in Hloop;
      [| assumption | intros; apply action_calls | lia].
    rewrite N.sub_0_r in Hloop.
    assert (Hfin : forall es, transportCalls es = 0%nat ->
              (transportCalls (es ++ trace st2) <= transportCalls (trace st) + N.to_nat n)%nat).
    { intros es Hes. unfold transportCalls in *. rewrite countEvents_app. lia. }
    destruct err2 as [e2 |].
    + intros H; injection H as _ <-.
      match goal with
      | |- context [match resp ?s with _ => _ end] => set (s2 := s)
      end.
      assert (Hs2 : (transportCalls (trace s2) <= transportCalls (trace st) + N.to_nat n)%nat).
      { subst s2. destruct sp; unfold emit; cbn [trace].
        - now apply (Hfin [EvTagError; EvLogError e2;
                           EvTagAttemptCount (attemptCount st2)]).
        - now apply (Hfin []). }
      destruct (resp s2) as [[code [b |]] |]; try assumption.
      cbn [trace]. now rewrite Close_transportCalls.
    + destruct sp; unfold emit; cbn [resp].
      * destruct (resp st2) as [r2 |]; intros H; injection H as _ <-; cbn [trace].
        -- now apply (Hfin [EvTagStatusCode (StatusCode r2 mod 2 ^ 16);
                            EvTagAttemptCount (attemptCount st2)]).
        -- now apply (Hfin [EvTagAttemptCount (attemptCount st2)]).
      * intros H; injection H as _ <-. now apply (Hfin []).
Qed.

(** With a limited policy and fuel beyond the limit the call returns. *)
Lemma doAttempts_terminates fuel req ro h rb st policy n rest :
  derefPolicy h (retryPolicyPtr ro) = Some policy ->
  retryStrategies policy = Limit n :: rest ->
  (n < uint_modulus)%N ->
  (N.to_nat n < fuel)%nat ->
  exists r e st', doAttempts w fuel req ro h rb st = Some (Returned r e, st').
Proof.
  intros Hpol Hstr Hn Hfuel. unfold doAttempts.
  destruct (startAndInjectSpan w req ro h st) as [[[sp spCtx] err] st1].
  destruct err as [e0 |]; cbn beta iota; [eexists _, _, _; reflexivity |].
  rewrite Hpol, Hstr. unfold retry_Do.
  match goal with
  | |- context [retryLoop w fuel ?ss ?a ?i ?e ?s] =>
      destruct (retryLoop_terminates w a n rest Hn fuel i e s) as (err2 & st2 & Hloop);
        [lia | rewrite N.sub_0_r; lia |]
  end.
  rewrite Hloop. destruct err2 as [e2 |]; [eexists _, _, _; reflexivity |].
  apply retryLoop_success in Hloop; [| discriminate].
  destruct Hloop as [st0 Hact].
  apply action_success in Hact. destruct Hact as (code & body & cf & Hr2).
  destruct sp; unfold emit; cbn [resp]; rewrite ?Hr2; eexists _, _, _; reflexivity.
Qed.

(** When each of the attempts the limit admits is made and fails in the
    transport, the call makes exactly as many transport calls as the limit
    says, and returns an error. *)
Lemma doAttempts_exhausts fuel req ro h rb st policy n rest :
  derefPolicy h (retryPolicyPtr ro) = Some policy ->
  retryStrategies policy = Limit n :: rest ->
  (n < uint_modulus)%N ->
  (N.to_nat n < fuel)%nat ->
  (forall a, (a < n)%N -> contextErr w a = None) ->
  (forall s, In s rest -> forall a e, (a < n)%N -> runStrategy s None a e = true) ->
  (forall k r, (k < N.to_nat n)%nat -> isFailed (roundTrip w k r) = true) ->
  (forall sp e, tracerInject w sp <> inl e) ->
  rewinds rb ->
  transportCalls (trace st) = 0%nat ->
  sends st = 0%nat ->
  exists e st',
    doAttempts w fuel req ro h rb st = Some (Returned None (Some e), st')
    /\ transportCalls (trace st') = N.to_nat n.
Proof.
  intros Hpol Hstr Hn Hfuel Hctx Hrest Hfail Hinj Hrew Hc0 Hs0.
  destruct (doAttempts_terminates fuel req ro h rb st policy n rest)
    as (r & e & st' & Hrun); try assumption.
  revert Hrun. unfold doAttempts.
  destruct (startAndInjectSpan_frame req ro h st) as (Hc1 & _ & Hs1).
  assert (Herr : snd (fst (startAndInjectSpan w req ro h st)) = None).
  { unfold startAndInjectSpan.
    destruct (derefTracing h (tracingOptionsPtr ro)) as [t |]; [| reflexivity].
    destruct (enabled t); cbn [negb]; [| reflexivity].
    destruct (injectCarrier t); [| reflexivity].
    destruct (tracerInject w _) as [e0 |] eqn:Hi; [| reflexivity].
    now apply Hinj in Hi. }
  destruct (startAndInjectSpan w req ro h st) as [[[sp spCtx] err] st1].
  cbn [fst snd] in Hc1, Hs1, Herr. subst err. cbn beta iota.
  rewrite Hpol, Hstr. unfold retry_Do.
  destruct (retryLoop _ _ _ _ _ _ _) as [[err2 st2] |] eqn:Hloop; [| discriminate].
  pose proof Hloop as Hcount.
  apply (retryLoop_preserves _ _ (fun s => transportCalls (trace s) = sends s)) in Hcount;
    [| intros s Hs; now apply action_sends_counted | lia].
  apply (retryLoop_exhausts _ _ _ _ Hn sends) in Hloop;
    try assumption; try discriminate; try lia;
    try (intros st3 Hst3; now apply (action_transport_failure _ _ _ _ _ _ (N.to_nat n))).
  destruct Hloop as [Hne Hsends].
  destruct err2 as [e2 |]; [| congruence].
  intros H; injection H as <- <- <-.
  exists e2. eexists; split; [reflexivity |].
  match goal with
  | |- context [match resp ?s with _ => _ end] => set (s2 := s)
  end.
  assert (Hs2 : transportCalls (trace s2) = transportCalls (trace st2)).
  { subst s2. destruct sp; reflexivity. }
  destruct (resp s2) as [[code [b |]] |]; cbn [trace];
    rewrite ?Close_transportCalls; lia.
Qed.

(** Capturing the body calls no transport, stores no response, and yields
    a source that rewinds whenever the caller's body does. *)
Lemma capture_frame body req :
  transportCalls (trace (snd (getRequestBodyReadSeekCloser body (startState req)))) = 0%nat
  /\ resp (snd (getRequestBodyReadSeekCloser body (startState req))) = None.
Proof.
  destruct body as [rsc | [err | bytes]]; cbn; auto.
Qed.

Lemma Do_calls fuel c req opts h out st h' policy n rest :
  effectivePolicy c opts h = Some policy ->
  retryStrategies policy = Limit n :: rest ->
  (n < uint_modulus)%N ->
  Do w fuel c req opts h = Some (out, st, h') ->
  (transportCalls (trace st) <= N.to_nat n)%nat.
Proof.
  unfold effectivePolicy, Do.
  destruct (applyAll opts (generator c) (clientOptions c, h)) as [ro h1]; cbn [fst snd].
  intros Hpol Hstr Hn.
  destruct (Body req) as [body |].
  - destruct (capture_frame body req) as [Hc0 _].
    destruct (getRequestBodyReadSeekCloser body (startState req)) as [[err | rsc] st0];
      cbn [snd] in Hc0.
    + intros H; injection H as _ <- _. lia.
    + destruct (doAttempts _ _ _ _ _ _ _) as [[out1 st1] |] eqn:Hd; [| discriminate].
      intros H; injection H as _ <- _.
      eapply doAttempts_calls in Hd; try eassumption.
      unfold emit, transportCalls in *; cbn [trace countEvents isSend]. lia.
  - destruct (doAttempts _ _ _ _ _ _ _) as [[out1 st1] |] eqn:Hd; [| discriminate].
    intros H; injection H as _ <- _.
    eapply doAttempts_calls in Hd; try eassumption.
    cbn in Hd. lia.
Qed.

Lemma Do_terminates fuel c req opts h policy n rest :
  effectivePolicy c opts h = Some policy ->
  retryStrategies policy = Limit n :: rest ->
  (n < uint_modulus)%N ->
  (N.to_nat n < fuel)%nat ->
  exists r e st h', Do w fuel c req opts h = Some (Returned r e, st, h').
Proof.
  unfold effectivePolicy, Do.
  destruct (applyAll opts (generator c) (clientOptions c, h)) as [ro h1]; cbn [fst snd].
  intros Hpol Hstr Hn Hfuel.
  destruct (Body req) as [body |].
  - destruct (getRequestBodyReadSeekCloser body (startState req)) as [[err | rsc] st0].
    + eexists _, _, _, _; reflexivity.
    + destruct (doAttempts_terminates fuel req ro h1 (Some rsc) st0 policy n rest)
        as (r & e & st' & ->); try assumption.
      eexists _, _, _, _; reflexivity.
  - destruct (doAttempts_terminates fuel req ro h1 None (startState req) policy n rest)
      as (r & e & st' & ->); try assumption.
    eexists _, _, _, _; reflexivity.
Qed.

Lemma Do_exhausts fuel c req opts h policy n rest :
  effectivePolicy c opts h = Some policy ->
  retryStrategies policy = Limit n :: rest ->
  (n < uint_modulus)%N ->
  (N.to_nat n < fuel)%nat ->
  (forall a, (a < n)%N -> contextErr w a = None) ->
  (forall s, In s rest -> forall a e, (a < n)%N -> runStrategy s None a e = true) ->
  (forall k r, (k < N.to_nat n)%nat -> isFailed (roundTrip w k r) = true) ->
  (forall sp e, tracerInject w sp <> inl e) ->
  replayable (Body req) ->
  exists e st h',
    Do w fuel c req opts h = Some (Returned None (Some e), st, h')
    /\ transportCalls (trace st) = N.to_nat n.
Proof.
  unfold effectivePolicy, Do.
  destruct (applyAll opts (generator c) (clientOptions c, h)) as [ro h1]; cbn [fst snd].
  intros Hpol Hstr Hn Hfuel Hctx Hrest Hfail Hinj Hbody.
  destruct (Body req) as [body |].
  - destruct body as [rsc | [err | bytes]]; cbn [replayable] in Hbody; [| contradiction |];
      cbn [getRequestBodyReadSeekCloser] in *.
    + destruct (doAttempts_exhausts fuel req ro h1 (Some rsc) (startState req) policy n rest)
        as (e & st' & -> & Hcalls); try assumption; try reflexivity.
      { intros r k Hr; injection Hr as <-; apply Hbody. }
      eexists _, _, _; split; [reflexivity |].
      unfold emit, transportCalls in *; cbn [trace countEvents isSend]. lia.
    + match goal with
      | |- context [doAttempts w fuel req ro h1 ?rb ?s] =>
          destruct (doAttempts_exhausts fuel req ro h1 rb s policy n rest)
            as (e & st' & -> & Hcalls); try assumption; try reflexivity
      end.
      { intros r k Hr; injection Hr as <-; reflexivity. }
      eexists _, _, _; split; [reflexivity |].
      unfold emit, transportCalls in *; cbn [trace countEvents isSend] in *. lia.
  - destruct (doAttempts_exhausts fuel req ro h1 None (startState req) policy n rest)
      as (e & st' & -> & Hcalls); try assumption; try reflexivity.
    { intros r k Hr; discriminate. }
    eexists _, _, _; split; [reflexivity |]. exact Hcalls.
Qed.

(** The error of the loop is the error of the call, with a nil response. *)
Lemma doAttempts_returns_loop_error fuel req ro h rb st sp spCtx st1 policy e st2 :
  startAndInjectSpan w req ro h st = ((sp, spCtx, None), st1) ->
  derefPolicy h (retryPolicyPtr ro) = Some policy ->
  retry_Do w fuel
           (action w req rb sp policy (match spCtx with Some c => c | None => Ctx req end))
           (retryStrategies policy) st1 = Some (Some e, st2) ->
  exists st', doAttempts w fuel req ro h rb st = Some (Returned None (Some e), st').
Proof.
  intros Hspan Hpol Hloop. unfold doAttempts.
  rewrite Hspan, Hpol, Hloop. eexists; reflexivity.
Qed.

End CallFacts.

(** C1.  Whenever [Do], [Get], [Head] or [Post] returns, exactly one of the
    response and the error is non-nil; and when the error is the non-nil one,
    a response the call still holds from the attempt it discarded has had its
    body closed by the call itself, as its last action before the deferred
    close of the request body.  A call that runs under a limited policy does
    return (and does not panic) once the fuel exceeds the limit. *)
Theorem exactly_one_of_response_and_error :
  forall (w : World) (c : Client) (opts : list Option) (h : Heap),
    (forall fuel req r e st h',
        Do w fuel c req opts h = Some (Returned r e, st, h') ->
        exactlyOneNonNil r e /\ (e <> None -> heldBodyClosed w st))
    /\ (forall fuel ctx url r e st h',
        Get w fuel c ctx url opts h = Some (Returned r e, st, h') ->
        exactlyOneNonNil r e /\ (e <> None -> heldBodyClosed w st))
    /\ (forall fuel ctx url r e st h',
        Head w fuel c ctx url opts h = Some (Returned r e, st, h') ->
        exactlyOneNonNil r e /\ (e <> None -> heldBodyClosed w st))
    /\ (forall fuel ctx url body r e st h',
        Post w fuel c ctx url body opts h = Some (Returned r e, st, h') ->
        exactlyOneNonNil r e /\ (e <> None -> heldBodyClosed w st))
    /\ (forall req policy n rest fuel,
        effectivePolicy c opts h = Some policy ->
        retryStrategies policy = Limit n :: rest ->
        (n < uint_modulus)%N ->
        (N.to_nat n < fuel)%nat ->
        exists r e st h', Do w fuel c req opts h = Some (Returned r e, st, h')).
Proof.
  intros w c opts h.
  assert (Hvia : forall res r e st h',
             (exists err, res = Some (Returned None (Wrap (Some err) "error creating request"),
                                      noRequest, h))
             \/ (exists fuel req, res = Do w fuel c req opts h) ->
             res = Some (Returned r e, st, h') ->
             exactlyOneNonNil r e /\ (e <> None -> heldBodyClosed w st)).
  { intros res r e st h' [[err ->] | (fuel & req & ->)] Hres.
    - injection Hres as <- <- <- _. split.
      + left; split; [reflexivity | discriminate].
      + intros _ rs body Hrs. discriminate.
    - eapply Do_returned; eassumption. }
  split; [| split; [| split; [| split]]].
  - intros fuel req r e st h' Hres. eapply Do_returned; eassumption.
  - intros fuel ctx url r e st h' Hres.
    refine (Hvia _ r e st h' _ Hres). unfold Get.
    destruct (NewRequestWithContext w ctx "GET" url None); eauto.
  - intros fuel ctx url r e st h' Hres.
    refine (Hvia _ r e st h' _ Hres). unfold Head.
    destruct (NewRequestWithContext w ctx "HEAD" url None); eauto.
  - intros fuel ctx url body r e st h' Hres.
    refine (Hvia _ r e st h' _ Hres). unfold Post.
    destruct (NewRequestWithContext w ctx "POST" url body); eauto.
  - intros; eapply Do_terminates; eassumption.
Qed.

Lemma exactly_one_of_response_and_error_witness :
  exists r e st h',
    Do redirectingWorld 2 (fst (New 0 [WithRetryPolicy 0 1 []] emptyHeap)) getRequest []
       (snd (New 0 [WithRetryPolicy 0 1 []] emptyHeap)) = Some (Returned r e, st, h')
    /\ exactlyOneNonNil r e
    /\ (e <> None -> heldBodyClosed redirectingWorld st)
    /\ In (EvCloseBody 7) (trace st).
Proof.
  eexists _, _, _, _. split; [reflexivity |].
  pose proof (proj1 (exactly_one_of_response_and_error redirectingWorld
                       (fst (New 0 [WithRetryPolicy 0 1 []] emptyHeap)) []
                       (snd (New 0 [WithRetryPolicy 0 1 []] emptyHeap)))
                    2%nat getRequest _ _ _ _ eq_refl) as [Hone Hclosed].
  split; [exact Hone |]. split; [exact Hclosed |].
  cbn. auto.
Defined.

(** C3.  Under a retry policy built with max attempts [n] (its strategies
    are [Limit n] followed by the others, as [WithRetryPolicy] and
    [WithStandardRetryPolicy] build them, see
    [effectivePolicy_WithRetryPolicy]), a call invokes the transport at most
    [n] times and returns once the fuel exceeds [n]; and it invokes the
    transport exactly [n] times when each of the [n] attempts is made and
    fails with a transport error: the call reaches the loop (the body is
    captured and rewinds, span setup does not fail), before each of the [n]
    attempts the overall context is live and the other strategies of the
    policy agree, and each of the first [n] transport calls answers an
    error. *)
Theorem transport_calls_bounded_by_limit :
  forall (w : World) (c : Client) (req : Request) (opts : list Option) (h : Heap)
         (policy : retryPolicy) (n : N) (rest : list Strategy),
    effectivePolicy c opts h = Some policy ->
    retryStrategies policy = Limit n :: rest ->
    (n < uint_modulus)%N ->
    (forall fuel out st h',
        Do w fuel c req opts h = Some (out, st, h') ->
        (transportCalls (trace st) <= N.to_nat n)%nat)
    /\ (forall fuel, (N.to_nat n < fuel)%nat ->
        exists r e st h', Do w fuel c req opts h = Some (Returned r e, st, h'))
    /\ ((forall a, (a < n)%N -> contextErr w a = None) ->
        (forall s, In s rest -> forall a e, (a < n)%N -> runStrategy s None a e = true) ->
        (forall k r, (k < N.to_nat n)%nat -> isFailed (roundTrip w k r) = true) ->
        (forall sp e, tracerInject w sp <> inl e) ->
        replayable (Body req) ->
        forall fuel, (N.to_nat n < fuel)%nat ->
        exists e st h',
          Do w fuel c req opts h = Some (Returned None (Some e), st, h')
          /\ transportCalls (trace st) = N.to_nat n).
Proof.
  intros w c req opts h policy n rest Hpol Hstr Hn.
  split; [| split].
  - intros fuel out st h' Hrun. eapply Do_calls; eassumption.
  - intros fuel Hfuel. eapply Do_terminates; eassumption.
  - intros Hctx Hrest Hfail Hinj Hbody fuel Hfuel.
    eapply Do_exhausts; eassumption.
Qed.

Lemma transport_calls_bounded_by_limit_witness :
  (exists e st h',
      Do refusingWorld 4 (fst (New 0 [] emptyHeap)) getRequest
         [WithStandardRetryPolicy Second 3] (snd (New 0 [] emptyHeap))
      = Some (Returned None (Some e), st, h')
      /\ transportCalls (trace st) = 3%nat)
  /\ (forall fuel out st h',
      Do refusingWorld fuel (fst (New 0 [] emptyHeap)) getRequest
         [WithStandardRetryPolicy Second 3] (snd (New 0 [] emptyHeap))
      = Some (out, st, h') ->
      (transportCalls (trace st) <= 3)%nat).
Proof.
  destruct (transport_calls_bounded_by_limit refusingWorld (fst (New 0 [] emptyHeap))
              getRequest [WithStandardRetryPolicy Second 3] (snd (New 0 [] emptyHeap))
              {| requestTimeout := Second;
                 retryStrategies :=
                   [Limit 3; StandardBackOffStrategy stdBackOffExponentialFactor
                                                     (NewRand 0) stdBackOffJitterDeviation] |}
              3%N
              [StandardBackOffStrategy stdBackOffExponentialFactor (NewRand 0)
                                       stdBackOffJitterDeviation]
              eq_refl eq_refl eq_refl) as (Hmost & _ & Hexact).
  split; [| exact Hmost].
  apply Hexact.
  - intros a _; reflexivity.
  - intros s [<- | []] a e _. cbn. now destruct (0 <? a)%N.
  - intros k r _; reflexivity.
  - intros sp e; discriminate.
  - exact I.
  - cbn; lia.
Defined.

Section RewindFacts.

Variable w : World.

(** A rewind that always fails makes every attempt fail before the
    transport, one [Seek] at a time. *)
Lemma action_rewind_always_fails req rsc sp policy aCtx st :
  (forall k, Seek rsc k <> None) ->
  exists e, fst (action w req (Some rsc) sp policy aCtx st) = Some e
    /\ seeks (snd (action w req (Some rsc) sp policy aCtx st)) = S (seeks st).
Proof.
  intros Hbroken. unfold action, emit.
  destruct sp; cbn [trace resp attemptCount header seeks sends timers];
    (destruct (Seek rsc (seeks st)) as [e |] eqn:Hs; [| now apply Hbroken in Hs]);
    exists e; cbn; auto.
Qed.

Lemma action_rewind_no_call req rsc sp policy aCtx st :
  (forall k, Seek rsc k <> None) ->
  transportCalls (trace st) = 0%nat ->
  transportCalls (trace (snd (action w req (Some rsc) sp policy aCtx st))) = 0%nat.
Proof.
  intros Hbroken H0.
  destruct (Seek rsc (seeks st)) as [e |] eqn:Hs; [| now apply Hbroken in Hs].
  destruct (action_rewind_failure w req (Some rsc) sp policy aCtx st rsc e eq_refl Hs)
    as (_ & Hc & _).
  now rewrite Hc.
Qed.

(** With a body that never rewinds, a limited policy still makes all its
    attempts: as many rewinds as the limit says, no transport call, and the
    call returns an error. *)
Lemma Do_rewind_exhausts fuel c req opts h policy n rest rsc :
  effectivePolicy c opts h = Some policy ->
  retryStrategies policy = Limit n :: rest ->
  (n < uint_modulus)%N ->
  (N.to_nat n < fuel)%nat ->
  (forall a, (a < n)%N -> contextErr w a = None) ->
  (forall s, In s rest -> forall a e, (a < n)%N -> runStrategy s None a e = true) ->
  (forall sp e, tracerInject w sp <> inl e) ->
  Body req = Some (SeekableBody rsc) ->
  (forall k, Seek rsc k <> None) ->
  exists e st h',
    Do w fuel c req opts h = Some (Returned None (Some e), st, h')
    /\ seeks st = N.to_nat n
    /\ transportCalls (trace st) = 0%nat.
Proof.
  unfold effectivePolicy, Do.
  destruct (applyAll opts (generator c) (clientOptions c, h)) as [ro h1]; cbn [fst snd].
  intros Hpol Hstr Hn Hfuel Hctx Hrest Hinj Hbody Hbroken.
  rewrite Hbody. cbn [getRequestBodyReadSeekCloser].
  destruct (doAttempts_terminates w fuel req ro h1 (Some rsc) (startState req) policy n rest)
    as (r & e & st' & Hrun); try assumption.
  rewrite Hrun. revert Hrun. unfold doAttempts.
  assert (Hspan : snd (fst (startAndInjectSpan w req ro h1 (startState req))) = None
                  /\ seeks (snd (startAndInjectSpan w req ro h1 (startState req))) = 0%nat
                  /\ transportCalls
                       (trace (snd (startAndInjectSpan w req ro h1 (startState req)))) = 0%nat).
  { unfold startAndInjectSpan.
    destruct (derefTracing h1 (tracingOptionsPtr ro)) as [t |]; [| auto].
    destruct (enabled t); cbn [negb]; [| auto].
    destruct (injectCarrier t); [| cbn; auto].
    destruct (tracerInject w _) as [e0 |] eqn:Hi; [now apply Hinj in Hi | cbn; auto]. }
  destruct (startAndInjectSpan w req ro h1 (startState req)) as [[[sp spCtx] err] st1].
  cbn [fst snd] in Hspan. destruct Hspan as (-> & Hs1 & Hc1). cbn beta iota.
  rewrite Hpol, Hstr. unfold retry_Do.
  destruct (retryLoop _ _ _ _ _ _ _) as [[err2 st2] |] eqn:Hloop; [| discriminate].
  pose proof Hloop as Hcalls.
  apply (retryLoop_preserves _ _ (fun s => transportCalls (trace s) = 0%nat)) in Hcalls;
    [| intros s Hs; now apply action_rewind_no_call | assumption].
  apply (retryLoop_exhausts _ _ _ _ Hn seeks) in Hloop;
    try assumption; try discriminate; try lia;
    try (intros st3 _; now apply action_rewind_always_fails).
  destruct Hloop as [Hne Hseeks].
  destruct err2 as [e2 |]; [| congruence].
  intros H; injection H as <- <- <-.
  exists e2. eexists _, _; split; [reflexivity |].
  match goal with
  | |- context [match resp ?s with _ => _ end] => set (s2 := s)
  end.
  assert (Hs2 : seeks s2 = seeks st2 /\ transportCalls (trace s2) = 0%nat).
  { subst s2. destruct sp; auto. }
  destruct Hs2 as [Hs2 Hc2].
  assert (Hdefer : forall tr, transportCalls (EvCloseRequestBody :: tr) = transportCalls tr)
    by reflexivity.
  destruct (resp s2) as [[code [b |]] |]; unfold emit; cbn [trace seeks];
    rewrite Hdefer, ?Close_transportCalls; split; lia.
Qed.

End RewindFacts.

(** C5.  A failed rewind is the failure of its attempt and stays subject to
    retry.  The attempt ends with the rewind error before the transport is
    called; the loop, which sees nothing of an attempt but its error, goes on
    from an admitted attempt that failed with [e] to the next attempt index
    with [e] as the previous error, whether [e] came from the rewind or from
    the transport; and under a limited policy a body that never rewinds uses
    up all the attempts of the limit (that many rewinds, no transport call)
    before the call returns an error. *)
Theorem rewind_failure_is_retried :
  forall (w : World),
    (forall req rsc sp policy ctx st e,
        Seek rsc (seeks st) = Some e ->
        fst (action w req (Some rsc) sp policy ctx st) = Some e
        /\ transportCalls (trace (snd (action w req (Some rsc) sp policy ctx st)))
           = transportCalls (trace st))
    /\ (forall req reqBody sp policy ctx st e fuel strategies attempt prev,
        fst (action w req reqBody sp policy ctx st) = Some e ->
        contextErr w attempt = None ->
        forallb (fun s => runStrategy s None attempt (unwrap prev)) strategies = true ->
        retryLoop w (S fuel) strategies (action w req reqBody sp policy ctx) attempt prev st
        = retryLoop w fuel strategies (action w req reqBody sp policy ctx)
                    (uint_succ attempt) (Some e)
                    (snd (action w req reqBody sp policy ctx st)))
    /\ (forall fuel c req opts h policy n rest rsc,
        effectivePolicy c opts h = Some policy ->
        retryStrategies policy = Limit n :: rest ->
        (n < uint_modulus)%N ->
        (N.to_nat n < fuel)%nat ->
        (forall a, (a < n)%N -> contextErr w a = None) ->
        (forall s, In s rest -> forall a e, (a < n)%N -> runStrategy s None a e = true) ->
        (forall sp e, tracerInject w sp <> inl e) ->
        Body req = Some (SeekableBody rsc) ->
        (forall k, Seek rsc k <> None) ->
        exists e st h',
          Do w fuel c req opts h = Some (Returned None (Some e), st, h')
          /\ seeks st = N.to_nat n
          /\ transportCalls (trace st) = 0%nat).
Proof.
  intros w. split; [| split].
  - intros req rsc sp policy ctx st e Hs.
    destruct (action_rewind_failure w req (Some rsc) sp policy ctx st rsc e eq_refl Hs)
      as (He & Hc & _).
    now split.
  - intros req reqBody sp policy ctx st e fuel strategies attempt prev He Hctx Hadm.
    rewrite retryLoop_step by assumption. now rewrite He.
  - intros. eapply Do_rewind_exhausts; eassumption.
Qed.

Lemma rewind_failure_is_retried_witness :
  exists e st h',
    Do respondingWorld 4 (fst (New 0 [] emptyHeap)) (postRequest brokenBody)
       [WithRetryPolicy 0 3 []] (snd (New 0 [] emptyHeap))
    = Some (Returned None (Some e), st, h')
    /\ seeks st = 3%nat
    /\ transportCalls (trace st) = 0%nat.
Proof.
  destruct (rewind_failure_is_retried respondingWorld) as (_ & _ & Hall).
  apply (Hall 4%nat (fst (New 0 [] emptyHeap)) (postRequest brokenBody)
              [WithRetryPolicy 0 3 []] (snd (New 0 [] emptyHeap))
              {| requestTimeout := 0; retryStrategies := [Limit 3] |} 3%N []
              brokenBody eq_refl eq_refl eq_refl).
  - cbn; lia.
  - intros a _; reflexivity.
  - intros s [].
  - intros sp e; discriminate.
  - reflexivity.
  - intros k; discriminate.
Defined.

(** C4, as stated, fails: the first rewind of [flakyBody] fails, and yet
    under a policy of two attempts the call makes a further attempt (a second
    rewind and one transport call) and returns a response with a nil error
    instead of the rewind error. *)
Lemma rewind_failure_not_terminal_counterexample :
  Seek flakyBody 0 = Some (ErrorString "seek failed")
  /\ exists r st h',
       Do respondingWorld 3 (fst (New 0 [WithRetryPolicy 0 2 []] emptyHeap))
          (postRequest flakyBody) [] (snd (New 0 [WithRetryPolicy 0 2 []] emptyHeap))
       = Some (Returned (Some r) None, st, h')
       /\ seeks st = 2%nat
       /\ transportCalls (trace st) = 1%nat.
Proof.
  split; [reflexivity |].
  eexists _, _, _. split; [reflexivity |]. split; reflexivity.
Qed.

(** C4, amended.  When the rewind before an admitted attempt fails, the
    attempt ends with the rewind error and the transport is not called.  The
    error ends the loop, as its result, only if the strategies then refuse
    the next attempt; if they admit it (and the overall context is still
    live) a further attempt is made.  An error the loop ends with is the
    error [Do] returns, with a nil response. *)
Theorem rewind_failure_ends_call_only_when_refused :
  forall (w : World) req rsc sp policy ctx st e fuel strategies attempt prev,
    Seek rsc (seeks st) = Some e ->
    contextErr w attempt = None ->
    forallb (fun s => runStrategy s None attempt (unwrap prev)) strategies = true ->
    contextErr w (uint_succ attempt) = None ->
    fst (action w req (Some rsc) sp policy ctx st) = Some e
    /\ transportCalls (trace (snd (action w req (Some rsc) sp policy ctx st)))
       = transportCalls (trace st)
    /\ retryLoop w (S (S fuel)) strategies (action w req (Some rsc) sp policy ctx)
                 attempt prev st
       = (if forallb (fun s => runStrategy s None (uint_succ attempt) (unwrap (Some e)))
                     strategies
          then
            match fst (action w req (Some rsc) sp policy ctx
                              (snd (action w req (Some rsc) sp policy ctx st))) with
            | None =>
                Some (None, snd (action w req (Some rsc) sp policy ctx
                                        (snd (action w req (Some rsc) sp policy ctx st))))
            | Some e' =>
                retryLoop w fuel strategies (action w req (Some rsc) sp policy ctx)
                          (uint_succ (uint_succ attempt)) (Some e')
                          (snd (action w req (Some rsc) sp policy ctx
                                       (snd (action w req (Some rsc) sp policy ctx st))))
            end
          else Some (Some e, snd (action w req (Some rsc) sp policy ctx st)))
    /\ (forall fuel' ro h st0 st1 spCtx st2,
          startAndInjectSpan w req ro h st0 = ((sp, spCtx, None), st1) ->
          derefPolicy h (retryPolicyPtr ro) = Some policy ->
          retry_Do w fuel'
                   (action w req (Some rsc) sp policy
                           (match spCtx with Some c => c | None => Ctx req end))
                   (retryStrategies policy) st1 = Some (Some e, st2) ->
          exists st', doAttempts w fuel' req ro h (Some rsc) st0
                      = Some (Returned None (Some e), st')).
Proof.
  intros w req rsc sp policy ctx st e fuel strategies attempt prev Hs Hctx Hadm Hnext.
  destruct (action_rewind_failure w req (Some rsc) sp policy ctx st rsc e eq_refl Hs)
    as (He & Hc & _).
  split; [assumption |]. split; [assumption |]. split.
  - rewrite (retryLoop_step w _ (S fuel) strategies attempt prev st Hctx Hadm). rewrite He.
    destruct (forallb (fun s => runStrategy s None (uint_succ attempt) (unwrap (Some e)))
                      strategies) eqn:Hadm2.
    + exact (retryLoop_step w _ fuel strategies (uint_succ attempt) (Some e) _ Hnext Hadm2).
    + exact (retryLoop_refused w _ fuel strategies (uint_succ attempt) (Some e) _ Hnext Hadm2).
  - intros; eapply doAttempts_returns_loop_error; eassumption.
Qed.

Lemma rewind_failure_ends_call_only_when_refused_witness :
  retryLoop respondingWorld 2 [Limit 1]
            (action respondingWorld (postRequest brokenBody) (Some brokenBody) None
                    {| requestTimeout := 0; retryStrategies := [Limit 1] |}
                    (CallerContext 0))
            0%N (Some internal) (startState (postRequest brokenBody))
  = Some (Some (ErrorString "seek failed"),
          snd (action respondingWorld (postRequest brokenBody) (Some brokenBody) None
                      {| requestTimeout := 0; retryStrategies := [Limit 1] |}
                      (CallerContext 0) (startState (postRequest brokenBody)))).
Proof.
  exact (proj1 (proj2 (proj2
    (rewind_failure_ends_call_only_when_refused respondingWorld
       (postRequest brokenBody) brokenBody None
       {| requestTimeout := 0; retryStrategies := [Limit 1] |} (CallerContext 0)
       (startState (postRequest brokenBody)) (ErrorString "seek failed")
       0%nat [Limit 1] 0%N (Some internal) eq_refl eq_refl eq_refl eq_refl)))).
Defined.

(** ** Timeouts and the response body *)

Section TimeoutFacts.

Variable w : World.
Variable req : Request.
Variable reqBody : option ReadSeekCloser.
Variable sp : option Span.
Variable policy : retryPolicy.
Variable aCtx : Context.

Local Abbreviation act := (action w req reqBody sp policy aCtx).

Local Ltac run_action :=
  unfold action, emit;
  cbn [trace resp attemptCount header seeks sends timers];
  destruct sp; destruct reqBody as [rsc |];
  cbn [trace resp attemptCount header seeks sends timers];
  try destruct (Seek rsc _) eqn:?;
  try destruct (requestTimeout policy =? 0) eqn:?;
  cbn [negb trace resp attemptCount header seeks sends timers];
  try destruct (roundTrip w _ _) as [code body | r err] eqn:?;
  cbn [fst snd trace resp attemptCount header seeks sends timers].

Lemma received_carriesNoCancel (r : option TransportResponse) rs body :
  option_map received r = Some rs -> RespBody rs = Some body -> carriesNoCancel body.
Proof.
  destruct r as [[code [b |]] |]; cbn; intros H; try discriminate;
    injection H as <-; cbn; intros Hb; try discriminate.
  injection Hb as <-. exists b. now left.
Qed.

(** Without a request timeout an attempt passes its own context to the
    transport, derives no timeout context and invokes no cancellation. *)
Lemma action_untimed st :
  requestTimeout policy = 0 ->
  untimedState aCtx st -> untimedState aCtx (snd (act st)).
Proof.
  intros Hzero [Htr Hresp]. unfold untimedState.
  run_action;
    try (rewrite Hzero in *; discriminate);
    (split;
     [ repeat (constructor; cbn [untimedUnder outCtx]; try exact I; try reflexivity);
       assumption
     | try assumption ]).
  all: intros rs body0 Hrs Hb; cbn [resp] in Hrs;
    try (eapply received_carriesNoCancel; eassumption);
    injection Hrs as <-; cbn in Hb; injection Hb as <-;
    eexists; right; reflexivity.
Qed.

(** Events that are not cancellations leave the count of cancellations. *)
Lemma action_cancelsAreOld st :
  cancelsAreOld st -> cancelsAreOld (snd (act st)).
Proof.
  unfold cancelsAreOld. intros Hold.
  run_action; intros i Hi; cbn [countEvents isCancel];
    try (rewrite Hold by lia; try reflexivity);
    try (destruct (Nat.eqb_spec (timers st) i); [lia | reflexivity]).
Qed.

(** A successful attempt under a request timeout hands the cancellation
    function of its own timeout context to the body wrapper, uninvoked. *)
Lemma action_success_timed st st' :
  requestTimeout policy <> 0 ->
  cancelsAreOld st ->
  act st = (None, st') ->
  exists code b,
    resp st' = Some {| StatusCode := code;
                       RespBody := Some (responseBodyReadCloser
                                           (NetworkBody b)
                                           (Some (CancelTimer (timers st)))) |}
    /\ countEvents (isCancel (CancelTimer (timers st))) (trace st') = 0%nat.
Proof.
  intros Hnz Hold.
  run_action; intros H; try discriminate;
    try (apply Z.eqb_eq in Heqb; contradiction);
    injection H as <-; cbn [resp trace countEvents isCancel];
    eexists _, _; (split; [reflexivity | now rewrite Hold by lia]).
Qed.

End TimeoutFacts.

Section TimeoutCallFacts.

Variable w : World.

Lemma spanEvents_untimed parent es :
  Forall (fun e => isSpanEvent e = true) es -> Forall (untimedUnder parent) es.
Proof.
  induction 1 as [| e es He _ IH]; constructor; [| assumption].
  destruct e; cbn in *; try discriminate; exact I.
Qed.

Lemma spanEvents_no_cancel c es :
  Forall (fun e => isSpanEvent e = true) es -> countEvents (isCancel c) es = 0%nat.
Proof.
  induction 1 as [| e es He _ IH]; [reflexivity |].
  cbn [countEvents]. rewrite IH. destruct e; cbn in *; try discriminate; reflexivity.
Qed.

(** Span setup adds span events only; the context it returns, if any, is the
    request's context carrying the new span. *)
Lemma startAndInjectSpan_events req o h st :
  exists es,
    trace (snd (startAndInjectSpan w req o h st)) = es ++ trace st
    /\ Forall (fun e => isSpanEvent e = true) es
    /\ resp (snd (startAndInjectSpan w req o h st)) = resp st
    /\ timers (snd (startAndInjectSpan w req o h st)) = timers st
    /\ (snd (fst (fst (startAndInjectSpan w req o h st))) = None
        \/ exists s, snd (fst (fst (startAndInjectSpan w req o h st)))
                     = Some (ContextWithSpan (Ctx req) s)).
Proof.
  unfold startAndInjectSpan, emit.
  destruct (derefTracing h (tracingOptionsPtr o)) as [t |];
    [| exists []; cbn; repeat split; auto; constructor].
  destruct (enabled t); cbn [negb];
    [| exists []; cbn; repeat split; auto; constructor].
  destruct (injectCarrier t).
  - destruct (tracerInject w _); cbn [fst snd trace resp timers];
      eexists [_; _]; (split; [reflexivity |]);
      (split; [repeat constructor |]); eauto.
  - cbn [fst snd trace resp timers].
    eexists [_]; (split; [reflexivity |]); (split; [repeat constructor |]); eauto.
Qed.

Lemma Close_carriesNoCancel rc tr :
  carriesNoCancel rc -> exists b, Close w rc tr = (bodyClose w b, EvCloseBody b :: tr).
Proof.
  intros [b [-> | ->]]; exists b; reflexivity.
Qed.

Lemma untimedState_more parent es st st' :
  untimedState parent st ->
  Forall (untimedUnder parent) es ->
  trace st' = es ++ trace st ->
  resp st' = resp st ->
  untimedState parent st'.
Proof.
  intros [Htr Hresp] Hes Ht Hr. split.
  - rewrite Ht. apply Forall_app. now split.
  - now rewrite Hr.
Qed.

Lemma doAttempts_untimed fuel req ro h rb st out st' policy :
  derefPolicy h (retryPolicyPtr ro) = Some policy ->
  requestTimeout policy = 0 ->
  (forall parent, untimedState parent st) ->
  doAttempts w fuel req ro h rb st = Some (out, st') ->
  exists parent,
    (parent = Ctx req \/ exists s, parent = ContextWithSpan (Ctx req) s)
    /\ Forall (untimedUnder parent) (trace st')
    /\ forall r e, out = Returned (Some r) e ->
         exists code b,
           r = {| StatusCode := code;
                  RespBody := Some (responseBodyReadCloser (NetworkBody b) None) |}.
Proof.
  intros Hpol Hzero Hinit. unfold doAttempts.
  destruct (startAndInjectSpan_events req ro h st) as (es & Ht1 & Hes & Hr1 & _ & Hctx).
  destruct (startAndInjectSpan w req ro h st) as [[[sp spCtx] err] st1].
  cbn [fst snd] in Ht1, Hr1, Hctx.
  set (ctx := match spCtx with Some c => c | None => Ctx req end).
  assert (Hparent : ctx = Ctx req \/ exists s, ctx = ContextWithSpan (Ctx req) s).
  { subst ctx. destruct Hctx as [-> | [s ->]]; eauto. }
  assert (H1 : untimedState ctx st1).
  { eapply untimedState_more; [apply Hinit | | eassumption | assumption].
    now apply spanEvents_untimed. }
  destruct err as [e0 |]; cbn beta iota.
  - intros Hout; injection Hout as <- <-. exists ctx.
    split; [assumption |]. split; [apply H1 |]. intros r e Hr; discriminate.
  - rewrite Hpol. unfold retry_Do.
    destruct (retryLoop _ _ _ _ _ _ _) as [[err2 st2] |] eqn:Hloop; [| discriminate].
    pose proof Hloop as H2.
    apply (retryLoop_preserves _ _ (untimedState ctx)) in H2;
      [| intros s Hs; now apply action_untimed | assumption].
    destruct err2 as [e2 |].
    + intros Hout; injection Hout as <- <-.
      exists ctx. split; [assumption |].
      match goal with
      | |- context [match resp ?s with _ => _ end] => set (s2 := s)
      end.
      assert (Hs2 : untimedState ctx s2).
      { subst s2. destruct sp; [| assumption].
        eapply (untimedState_more ctx [_; _; _]); [exact H2 | | reflexivity | reflexivity].
        repeat constructor. }
      split; [| intros r e Hr; discriminate].
      destruct Hs2 as [Htr Hresp].
      destruct (resp s2) as [[code [b |]] |] eqn:Hheld; try assumption.
      cbn [trace].
      destruct (Close_carriesNoCancel b (trace s2) (Hresp _ _ eq_refl eq_refl)) as [b0 ->].
      cbn [snd]. constructor; [exact I | assumption].
    + apply retryLoop_success in Hloop; [| discriminate].
      destruct Hloop as [st0 Hact].
      apply action_success in Hact. destruct Hact as (code & body & cf & Hr2).
      destruct H2 as [Htr Hresp].
      destruct (Hresp _ _ Hr2 eq_refl) as [b0 [Hb | Hb]]; [discriminate |].
      injection Hb as <- <-.
      destruct sp; unfold emit; cbn [resp]; rewrite Hr2; intros Hout;
        injection Hout as <- <-; cbn [trace];
        exists ctx; (split; [assumption |]);
        (split; [repeat (constructor; try exact I); assumption |]);
        intros r e Hr; injection Hr as <- _; eauto.
Qed.

End TimeoutCallFacts.

Section TimedCallFacts.

Variable w : World.

Lemma isCancel_same c : isCancel c (EvCancel c) = true.
Proof. destruct c as [i]. cbn. apply Nat.eqb_refl. Qed.

(** Each [Close] of the wrapper invokes its cancellation function once. *)
Lemma closeTimes_cancels b c k : forall tr,
  countEvents (isCancel c) (closeTimes w k (responseBodyReadCloser (NetworkBody b) (Some c)) tr)
  = (k + countEvents (isCancel c) tr)%nat.
Proof.
  induction k as [| k IH]; intros tr; cbn [closeTimes]; [reflexivity |].
  rewrite IH. cbn [Close snd countEvents]. rewrite isCancel_same.
  destruct c; cbn. lia.
Qed.

Lemma cancelsAreOld_more es st st' :
  cancelsAreOld st ->
  (forall c, countEvents (isCancel c) es = 0%nat) ->
  trace st' = es ++ trace st ->
  timers st' = timers st ->
  cancelsAreOld st'.
Proof.
  intros Hold Hes Ht Htm i Hi. rewrite Ht, countEvents_app, Hes.
  apply Hold. lia.
Qed.

Lemma doAttempts_timed fuel req ro h rb st r e st' policy :
  derefPolicy h (retryPolicyPtr ro) = Some policy ->
  requestTimeout policy <> 0 ->
  cancelsAreOld st ->
  doAttempts w fuel req ro h rb st = Some (Returned (Some r) e, st') ->
  exists code b c,
    r = {| StatusCode := code;
           RespBody := Some (responseBodyReadCloser (NetworkBody b) (Some c)) |}
    /\ countEvents (isCancel c) (trace st') = 0%nat.
Proof.
  intros Hpol Hnz Hinit. unfold doAttempts.
  destruct (startAndInjectSpan_events w req ro h st) as (es & Ht1 & Hes & _ & Htm1 & _).
  destruct (startAndInjectSpan w req ro h st) as [[[sp spCtx] err] st1].
  cbn [fst snd] in Ht1, Htm1.
  assert (H1 : cancelsAreOld st1).
  { eapply cancelsAreOld_more; [exact Hinit | | eassumption | assumption].
    intros c. now apply spanEvents_no_cancel. }
  destruct err as [e0 |]; cbn beta iota; [discriminate |].
  rewrite Hpol. unfold retry_Do.
  destruct (retryLoop _ _ _ _ _ _ _) as [[err2 st2] |] eqn:Hloop; [| discriminate].
  destruct err2 as [e2 |]; [discriminate |].
  apply (retryLoop_success_inv _ _ cancelsAreOld) in Hloop;
    [| intros s Hs; now apply action_cancelsAreOld | assumption | discriminate].
  destruct Hloop as (st0 & H0 & Hact).
  apply action_success_timed in Hact; [| assumption | assumption].
  destruct Hact as (code & b & Hr2 & Hcount).
  destruct sp; unfold emit; cbn [resp]; rewrite Hr2; intros Hout;
    injection Hout as <- _ <-; cbn [trace countEvents isCancel];
    exists code, b, (CancelTimer (timers st0)); (split; [reflexivity |]); assumption.
Qed.

End TimedCallFacts.

(** C7.  Under a retry policy whose request timeout is zero, every transport
    call of the call receives the parent context itself (the request's
    context, or that context carrying the span when tracing is on), no
    timeout context is derived and no cancellation function is invoked; a
    response that is returned has the wrapper without a cancellation function
    as its body, and closing that body closes the network body and does
    nothing else. *)
Theorem zero_timeout_keeps_parent_context :
  forall (w : World) (c : Client) (req : Request) (opts : list Option) (h : Heap)
         (policy : retryPolicy),
    effectivePolicy c opts h = Some policy ->
    requestTimeout policy = 0 ->
    forall fuel out st h',
      Do w fuel c req opts h = Some (out, st, h') ->
      exists parent,
        (parent = Ctx req \/ exists s, parent = ContextWithSpan (Ctx req) s)
        /\ Forall (untimedUnder parent) (trace st)
        /\ forall r e, out = Returned (Some r) e ->
             exists code b,
               r = {| StatusCode := code;
                      RespBody := Some (responseBodyReadCloser (NetworkBody b) None) |}
               /\ forall tr, Close w (responseBodyReadCloser (NetworkBody b) None) tr
                             = (bodyClose w b, EvCloseBody b :: tr).
Proof.
  intros w c req opts h policy. unfold effectivePolicy, Do.
  destruct (applyAll opts (generator c) (clientOptions c, h)) as [ro h1]; cbn [fst snd].
  intros Hpol Hzero fuel out st h'.
  assert (Hstart : forall parent, untimedState parent (startState req)).
  { intros parent. split; [constructor | intros rs body Hrs; discriminate]. }
  assert (Hgoal : forall rb st0 out1 st1,
             (forall parent, untimedState parent st0) ->
             doAttempts w fuel req ro h1 rb st0 = Some (out1, st1) ->
             forall deferred, Forall (fun e => e = EvCloseRequestBody) deferred ->
             exists parent,
               (parent = Ctx req \/ exists s, parent = ContextWithSpan (Ctx req) s)
               /\ Forall (untimedUnder parent) (deferred ++ trace st1)
               /\ forall r e, out1 = Returned (Some r) e ->
                    exists code b,
                      r = {| StatusCode := code;
                             RespBody := Some (responseBodyReadCloser (NetworkBody b) None) |}
                      /\ forall tr, Close w (responseBodyReadCloser (NetworkBody b) None) tr
                                    = (bodyClose w b, EvCloseBody b :: tr)).
  { intros rb st0 out1 st1 H0 Hd deferred Hdef.
    destruct (doAttempts_untimed w fuel req ro h1 rb st0 out1 st1 policy Hpol Hzero H0 Hd)
      as (parent & Hp & Htr & Hr).
    exists parent. split; [assumption |]. split.
    - apply Forall_app. split; [| assumption].
      induction Hdef as [| e l He _ IH]; constructor; [now subst e | assumption].
    - intros r e Hout. destruct (Hr r e Hout) as (code & b & ->).
      exists code, b. split; reflexivity. }
  destruct (Body req) as [body |].
  - destruct body as [rsc | [err | bytes]]; cbn [getRequestBodyReadSeekCloser].
    + destruct (doAttempts _ _ _ _ _ _ _) as [[out1 st1] |] eqn:Hd; [| discriminate].
      intros Hout; injection Hout as <- <- <-.
      apply (Hgoal _ _ _ _ Hstart Hd [EvCloseRequestBody]). now repeat constructor.
    + intros Hout; injection Hout as <- <- <-.
      exists (Ctx req). split; [now left |]. split; [repeat constructor |].
      intros r e Hr; discriminate.
    + destruct (doAttempts _ _ _ _ _ _ _) as [[out1 st1] |] eqn:Hd; [| discriminate].
      intros Hout; injection Hout as <- <- <-.
      refine (Hgoal _ _ _ _ _ Hd [EvCloseRequestBody] _); [| now repeat constructor].
      intros parent. split; [repeat constructor | intros rs body Hrs; discriminate].
  - destruct (doAttempts _ _ _ _ _ _ _) as [[out1 st1] |] eqn:Hd; [| discriminate].
    intros Hout; injection Hout as <- <- <-.
    apply (Hgoal _ _ _ _ Hstart Hd []). constructor.
Qed.

Lemma zero_timeout_keeps_parent_context_witness :
  exists out st h',
    Do respondingWorld 3 (fst (New 0 [] emptyHeap)) getRequest [WithRetryPolicy 0 2 []]
       (snd (New 0 [] emptyHeap)) = Some (out, st, h')
    /\ exists parent,
        (parent = Ctx getRequest \/ exists s, parent = ContextWithSpan (Ctx getRequest) s)
        /\ Forall (untimedUnder parent) (trace st)
        /\ forall r e, out = Returned (Some r) e ->
             exists code b,
               r = {| StatusCode := code;
                      RespBody := Some (responseBodyReadCloser (NetworkBody b) None) |}
               /\ forall tr, Close respondingWorld (responseBodyReadCloser (NetworkBody b) None) tr
                             = (bodyClose respondingWorld b, EvCloseBody b :: tr).
Proof.
  eexists _, _, _. split; [reflexivity |].
  exact (zero_timeout_keeps_parent_context respondingWorld (fst (New 0 [] emptyHeap))
           getRequest [WithRetryPolicy 0 2 []] (snd (New 0 [] emptyHeap))
           {| requestTimeout := 0; retryStrategies := [Limit 2] |}
           eq_refl eq_refl 3%nat _ _ _ eq_refl).
Defined.

(** C6, as stated, fails: a call under a one-second request timeout returns
    a response; the caller closes its body twice, and the cancellation
    function of the attempt has then been invoked twice, not once. *)
Lemma cancel_invoked_per_close_counterexample :
  exists r body st h',
    Do respondingWorld 2 (fst (New 0 [WithRetryPolicy Second 1 []] emptyHeap)) getRequest []
       (snd (New 0 [WithRetryPolicy Second 1 []] emptyHeap))
    = Some (Returned (Some r) None, st, h')
    /\ RespBody r = Some body
    /\ countEvents (isCancel (CancelTimer 0)) (trace st) = 0%nat
    /\ countEvents (isCancel (CancelTimer 0))
                   (closeTimes respondingWorld 2 body (trace st)) = 2%nat.
Proof.
  eexists _, _, _, _. split; [reflexivity |]. split; [reflexivity |].
  split; reflexivity.
Qed.

(** C6, amended.  A response returned under a non-zero request timeout has
    as its body the wrapper that carries the cancellation function of the
    attempt; the call itself has not invoked that function; and every [Close]
    of the body invokes it exactly once, after closing the network body, so
    that [k] calls of [Close] invoke it [k] times. *)
Theorem cancel_invoked_once_per_close :
  forall (w : World) (c : Client) (req : Request) (opts : list Option) (h : Heap)
         (policy : retryPolicy) fuel r e st h',
    effectivePolicy c opts h = Some policy ->
    requestTimeout policy <> 0 ->
    Do w fuel c req opts h = Some (Returned (Some r) e, st, h') ->
    exists code b cancel,
      r = {| StatusCode := code;
             RespBody := Some (responseBodyReadCloser (NetworkBody b) (Some cancel)) |}
      /\ countEvents (isCancel cancel) (trace st) = 0%nat
      /\ (forall tr,
             Close w (responseBodyReadCloser (NetworkBody b) (Some cancel)) tr
             = (bodyClose w b, EvCancel cancel :: EvCloseBody b :: tr))
      /\ (forall k tr,
             countEvents (isCancel cancel)
               (closeTimes w k (responseBodyReadCloser (NetworkBody b) (Some cancel)) tr)
             = (k + countEvents (isCancel cancel) tr)%nat).
Proof.
  intros w c req opts h policy fuel r e st h'. unfold effectivePolicy, Do.
  destruct (applyAll opts (generator c) (clientOptions c, h)) as [ro h1]; cbn [fst snd].
  intros Hpol Hnz.
  assert (Hgoal : forall rb st0 st1,
             cancelsAreOld st0 ->
             doAttempts w fuel req ro h1 rb st0 = Some (Returned (Some r) e, st1) ->
             forall deferred, Forall (fun ev => ev = EvCloseRequestBody) deferred ->
             exists code b cancel,
               r = {| StatusCode := code;
                      RespBody := Some (responseBodyReadCloser (NetworkBody b) (Some cancel)) |}
               /\ countEvents (isCancel cancel) (deferred ++ trace st1) = 0%nat
               /\ (forall tr,
                      Close w (responseBodyReadCloser (NetworkBody b) (Some cancel)) tr
                      = (bodyClose w b, EvCancel cancel :: EvCloseBody b :: tr))
               /\ (forall k tr,
                      countEvents (isCancel cancel)
                        (closeTimes w k (responseBodyReadCloser (NetworkBody b) (Some cancel)) tr)
                      = (k + countEvents (isCancel cancel) tr)%nat)).
  { intros rb st0 st1 H0 Hd deferred Hdef.
    destruct (doAttempts_timed w fuel req ro h1 rb st0 r e st1 policy Hpol Hnz H0 Hd)
      as (code & b & cancel & Hr & Hcount).
    exists code, b, cancel. split; [assumption |]. split.
    - rewrite countEvents_app, Hcount, Nat.add_0_r.
      induction Hdef as [| ev l Hev _ IH]; [reflexivity |].
      subst ev. cbn [countEvents isCancel]. exact IH.
    - split; [reflexivity | intros k tr; apply closeTimes_cancels]. }
  assert (Hstart : forall tr, (forall cf, countEvents (isCancel cf) tr = 0%nat) ->
             cancelsAreOld {| trace := tr; resp := None; attemptCount := 0;
                              header := Header req; seeks := 0; sends := 0;
                              timers := 0 |}).
  { intros tr Htr i _. apply Htr. }
  destruct (Body req) as [body |].
  - destruct body as [rsc | [err | bytes]]; cbn [getRequestBodyReadSeekCloser].
    + destruct (doAttempts _ _ _ _ _ _ _) as [[out1 st1] |] eqn:Hd; [| discriminate].
      intros Hout; injection Hout as -> <- <-.
      refine (Hgoal _ _ _ _ Hd [EvCloseRequestBody] _); [| now repeat constructor].
      apply (Hstart []). reflexivity.
    + discriminate.
    + destruct (doAttempts _ _ _ _ _ _ _) as [[out1 st1] |] eqn:Hd; [| discriminate].
      intros Hout; injection Hout as -> <- <-.
      refine (Hgoal _ _ _ _ Hd [EvCloseRequestBody] _); [| now repeat constructor].
      apply (Hstart [EvCloseOriginalBody; EvReadAll]). intros [i]; reflexivity.
  - destruct (doAttempts _ _ _ _ _ _ _) as [[out1 st1] |] eqn:Hd; [| discriminate].
    intros Hout; injection Hout as -> <- <-.
    refine (Hgoal _ _ _ _ Hd [] _); [| constructor].
    apply (Hstart []). reflexivity.
Qed.

Lemma cancel_invoked_once_per_close_witness :
  exists r e st h',
    Do respondingWorld 2 (fst (New 0 [WithRetryPolicy Second 1 []] emptyHeap)) getRequest []
       (snd (New 0 [WithRetryPolicy Second 1 []] emptyHeap))
    = Some (Returned (Some r) e, st, h')
    /\ exists code b cancel,
        r = {| StatusCode := code;
               RespBody := Some (responseBodyReadCloser (NetworkBody b) (Some cancel)) |}
        /\ countEvents (isCancel cancel) (trace st) = 0%nat
        /\ (forall tr,
               Close respondingWorld (responseBodyReadCloser (NetworkBody b) (Some cancel)) tr
               = (bodyClose respondingWorld b, EvCancel cancel :: EvCloseBody b :: tr))
        /\ (forall k tr,
               countEvents (isCancel cancel)
                 (closeTimes respondingWorld k
                    (responseBodyReadCloser (NetworkBody b) (Some cancel)) tr)
               = (k + countEvents (isCancel cancel) tr)%nat).
Proof.
  eexists _, _, _, _. split; [reflexivity |].
  refine (cancel_invoked_once_per_close respondingWorld
            (fst (New 0 [WithRetryPolicy Second 1 []] emptyHeap)) getRequest []
            (snd (New 0 [WithRetryPolicy Second 1 []] emptyHeap))
            {| requestTimeout := Second; retryStrategies := [Limit 1] |}
            2%nat _ _ _ _ eq_refl _ eq_refl).
  discriminate.
Defined.

(** ** Tracing *)

Section TracingFacts.

Variable w : World.

Lemma Close_no_span rc tr :
  countEvents isSpanEvent (snd (Close w rc tr)) = countEvents isSpanEvent tr.
Proof.
  revert tr. induction rc as [id | rc IH cf]; intros tr; cbn [Close].
  - reflexivity.
  - specialize (IH tr). destruct (Close w rc tr) as [err tr1]; cbn [snd] in *.
    destruct cf; cbn [snd countEvents isSpanEvent]; assumption.
Qed.

(** Without a span an attempt records no span event and leaves the request
    header alone. *)
Lemma action_no_span req rb policy aCtx hdr st :
  countEvents isSpanEvent (trace st) = 0%nat /\ header st = hdr ->
  countEvents isSpanEvent (trace (snd (action w req rb None policy aCtx st))) = 0%nat
  /\ header (snd (action w req rb None policy aCtx st)) = hdr.
Proof.
  intros [Htr Hh]. unfold action, emit.
  destruct rb as [rsc |];
    cbn [trace resp attemptCount header seeks sends timers];
    try destruct (Seek rsc _);
    try destruct (requestTimeout policy =? 0);
    cbn [negb trace resp attemptCount header seeks sends timers];
    try destruct (roundTrip w _ _);
    cbn [fst snd trace header countEvents isSpanEvent]; auto.
Qed.

Lemma startAndInjectSpan_disabled req o h st :
  tracingEnabled o h = false ->
  startAndInjectSpan w req o h st = ((None, None, None), st).
Proof.
  unfold tracingEnabled, startAndInjectSpan.
  destruct (derefTracing h (tracingOptionsPtr o)) as [t |]; [| reflexivity].
  now intros ->.
Qed.

Lemma doAttempts_no_span fuel req ro h rb st out st' :
  tracingEnabled ro h = false ->
  countEvents isSpanEvent (trace st) = 0%nat ->
  doAttempts w fuel req ro h rb st = Some (out, st') ->
  countEvents isSpanEvent (trace st') = 0%nat /\ header st' = header st.
Proof.
  intros Hdis H0. unfold doAttempts.
  rewrite (startAndInjectSpan_disabled req ro h st Hdis). cbn beta iota.
  destruct (derefPolicy h (retryPolicyPtr ro)) as [policy |].
  - unfold retry_Do.
    destruct (retryLoop _ _ _ _ _ _ _) as [[err2 st2] |] eqn:Hloop; [| discriminate].
    apply (retryLoop_preserves _ _
             (fun s => countEvents isSpanEvent (trace s) = 0%nat /\ header s = header st))
      in Hloop; [| intros s Hs; now apply action_no_span | now split].
    destruct Hloop as [H2 Hh2].
    destruct err2 as [e2 |]; intros Hout; injection Hout as _ <-; [| now split].
    destruct (resp st2) as [[code [b |]] |]; cbn [trace header];
      rewrite ?Close_no_span; now split.
  - intros Hout; injection Hout as _ <-. now split.
Qed.

End TracingFacts.

(** C8.  When tracing is enabled with carrier injection requested, the call
    reaches span setup (its body, if any, was captured) and the tracer's
    [Inject] answers an error, [Do] returns that error wrapped, with a nil
    response, and has not called the transport. *)
Theorem inject_failure_fails_call_without_transport :
  forall (w : World) (c : Client) (req : Request) (opts : list Option) (h : Heap)
         (t : tracingOptions) (e : error),
    effectiveTracing c opts h = Some t ->
    enabled t = true ->
    injectCarrier t = true ->
    tracerInject w (callSpan req (requestOptions c opts h) t) = inl e ->
    readable (Body req) ->
    forall fuel,
    exists st h',
      Do w fuel c req opts h
      = Some (Returned None
                (Some (WithMessage e "error starting and injecting tracing span")), st, h')
      /\ transportCalls (trace st) = 0%nat.
Proof.
  intros w c req opts h t e. unfold effectiveTracing, requestOptions, Do.
  destruct (applyAll opts (generator c) (clientOptions c, h)) as [ro h1]; cbn [fst snd].
  intros Ht Hen Hinj Herr Hread fuel.
  assert (Hsetup : forall rb st0,
             transportCalls (trace st0) = 0%nat ->
             exists st1,
               doAttempts w fuel req ro h1 rb st0
               = Some (Returned None
                         (Some (WithMessage e "error starting and injecting tracing span")),
                       st1)
               /\ transportCalls (trace st1) = 0%nat).
  { intros rb st0 H0. unfold doAttempts, startAndInjectSpan.
    rewrite Ht, Hen, Hinj. cbn [negb]. unfold callSpan in Herr. rewrite Herr.
    cbn beta iota. eexists; split; [reflexivity |]. exact H0. }
  destruct (Body req) as [body |].
  - destruct body as [rsc | [err | bytes]]; cbn [getRequestBodyReadSeekCloser].
    + destruct (Hsetup (Some rsc) (startState req) eq_refl) as (st1 & -> & H1).
      eexists _, _; split; [reflexivity | exact H1].
    + now destruct (Hread err).
    + match goal with
      | |- context [doAttempts w fuel req ro h1 ?rb ?s] =>
          destruct (Hsetup rb s eq_refl) as (st1 & -> & H1)
      end.
      eexists _, _; split; [reflexivity | exact H1].
  - destruct (Hsetup None (startState req) eq_refl) as (st1 & -> & H1).
    eexists _, _; split; [reflexivity | exact H1].
Qed.

Lemma inject_failure_fails_call_without_transport_witness :
  exists st h',
    Do brokenTracerWorld 0 (fst (New 0 [] emptyHeap)) getRequest
       [WithTracingOptions true "testOp" []; WithSpanCarrierInjected] (snd (New 0 [] emptyHeap))
    = Some (Returned None
              (Some (WithMessage (ErrorString "opentracing: Tracer.Inject() failed")
                                 "error starting and injecting tracing span")), st, h')
    /\ transportCalls (trace st) = 0%nat.
Proof.
  apply (inject_failure_fails_call_without_transport brokenTracerWorld
           (fst (New 0 [] emptyHeap)) getRequest
           [WithTracingOptions true "testOp" []; WithSpanCarrierInjected]
           (snd (New 0 [] emptyHeap))
           {| enabled := true; injectCarrier := true; spanOptions := [] |}
           (ErrorString "opentracing: Tracer.Inject() failed")
           eq_refl eq_refl eq_refl eq_refl).
  intros err; discriminate.
Defined.

(** C10.  When the client's tracing configuration is absent or disabled and
    no option of the call switches tracing on, the call runs with tracing
    disabled whatever else its options are: [WithSpanCarrierInjected] on an
    absent configuration allocates one with the carrier flag set and the
    enabled flag false; span setup returns no span, no context and no error
    and leaves the state, request header included, as it was; and the whole
    call records no span event (no span started, no carrier injected, no tag
    or log) and hands the header back unchanged. *)
Theorem carrier_flag_alone_starts_no_span :
  forall (w : World) (c : Client) (req : Request) (opts : list Option) (h : Heap),
    tracingEnabled (clientOptions c) h = false ->
    Forall (fun fo => enablesTracing fo = false) opts ->
    (forall g o h0,
        tracingOptionsPtr o = None ->
        derefTracing (snd (apply WithSpanCarrierInjected g (o, h0)))
                     (tracingOptionsPtr (fst (apply WithSpanCarrierInjected g (o, h0))))
        = Some {| enabled := false; injectCarrier := true; spanOptions := [] |})
    /\ tracingEnabled (requestOptions c opts h)
                      (snd (applyAll opts (generator c) (clientOptions c, h))) = false
    /\ (forall st,
        startAndInjectSpan w req (requestOptions c opts h)
                           (snd (applyAll opts (generator c) (clientOptions c, h))) st
        = ((None, None, None), st))
    /\ (forall fuel out st h',
        Do w fuel c req opts h = Some (out, st, h') ->
        countEvents isSpanEvent (trace st) = 0%nat /\ header st = Header req).
Proof.
  intros w c req opts h Hdis Hopts.
  pose proof (applyAll_keeps_tracing_disabled opts (generator c) (clientOptions c) h
                Hopts Hdis) as Hmerged.
  split; [| split; [| split]].
  - intros g o h0 Hnil. cbn [apply]. rewrite Hnil. cbn. apply lookup_new_cell.
  - exact Hmerged.
  - intros st. now apply startAndInjectSpan_disabled.
  - unfold requestOptions in Hmerged. unfold Do.
    destruct (applyAll opts (generator c) (clientOptions c, h)) as [ro h1];
      cbn [fst snd] in Hmerged.
    intros fuel out st h'.
    destruct (Body req) as [body |].
    + destruct body as [rsc | [err | bytes]]; cbn [getRequestBodyReadSeekCloser].
      * destruct (doAttempts _ _ _ _ _ _ _) as [[out1 st1] |] eqn:Hd; [| discriminate].
        intros Hout; injection Hout as _ <- _.
        apply doAttempts_no_span in Hd; [| assumption | reflexivity].
        exact Hd.
      * intros Hout; injection Hout as _ <- _. now split.
      * destruct (doAttempts _ _ _ _ _ _ _) as [[out1 st1] |] eqn:Hd; [| discriminate].
        intros Hout; injection Hout as _ <- _.
        apply doAttempts_no_span in Hd; [| assumption | reflexivity].
        exact Hd.
    + destruct (doAttempts _ _ _ _ _ _ _) as [[out1 st1] |] eqn:Hd; [| discriminate].
      intros Hout; injection Hout as _ <- _.
      apply doAttempts_no_span in Hd; [| assumption | reflexivity].
      exact Hd.
Qed.

Lemma carrier_flag_alone_starts_no_span_witness :
  exists out st h',
    Do respondingWorld 11 (fst (New 0 [] emptyHeap)) getRequest [WithSpanCarrierInjected]
       (snd (New 0 [] emptyHeap)) = Some (out, st, h')
    /\ countEvents isSpanEvent (trace st) = 0%nat
    /\ header st = Header getRequest
    /\ derefTracing h' (tracingOptionsPtr
                          (requestOptions (fst (New 0 [] emptyHeap)) [WithSpanCarrierInjected]
                                          (snd (New 0 [] emptyHeap))))
       = Some {| enabled := false; injectCarrier := true; spanOptions := [] |}.
Proof.
  assert (Hopts : Forall (fun fo => enablesTracing fo = false) [WithSpanCarrierInjected])
    by (repeat constructor).
  destruct (carrier_flag_alone_starts_no_span respondingWorld (fst (New 0 [] emptyHeap))
              getRequest [WithSpanCarrierInjected] (snd (New 0 [] emptyHeap))
              eq_refl Hopts) as (_ & _ & _ & Hcall).
  eexists _, _, _. split; [reflexivity |].
  destruct (Hcall 11%nat _ _ _ eq_refl) as [Hspan Hheader].
  split; [exact Hspan |]. split; [exact Hheader | reflexivity].
Defined.

(** The retry-policy half of C2 holds: options only append policy cells, so
    the policy the client points to is the same after any call. *)
Lemma per_call_options_keep_retry_policy w fuel c req opts h out st h' pol :
  derefPolicy h (retryPolicyPtr (clientOptions c)) = Some pol ->
  Do w fuel c req opts h = Some (out, st, h') ->
  derefPolicy h' (retryPolicyPtr (clientOptions c)) = Some pol.
Proof.
  intros Hpol. unfold Do, derefPolicy in *.
  destruct (retryPolicyPtr (clientOptions c)) as [i |]; [| discriminate].
  pose proof (applyAll_keeps_policy opts (generator c) (clientOptions c) h i pol Hpol)
    as Hkeep.
  destruct (applyAll opts (generator c) (clientOptions c, h)) as [ro h1];
    cbn [snd] in Hkeep.
  destruct (Body req) as [body |].
  - destruct (getRequestBodyReadSeekCloser body (startState req)) as [[err | rsc] st0].
    + intros Hout; injection Hout as _ _ <-. exact Hkeep.
    + destruct (doAttempts _ _ _ _ _ _ _) as [[out1 st1] |]; [| discriminate].
      intros Hout; injection Hout as _ _ <-. exact Hkeep.
  - destruct (doAttempts _ _ _ _ _ _ _) as [[out1 st1] |]; [| discriminate].
    intros Hout; injection Hout as _ _ <-. exact Hkeep.
Qed.

(** C2, evaluated on the code.  The tracing half of the claim fails: a
    client built with tracing switched off, after a single call that passes
    [WithTracingOptions true], has tracing switched on in its own stored
    configuration, and a later call without options starts a span (four span
    events: start, attempt log, attempt-count tag, status tag), which the
    same call on the untouched client does not. *)
Theorem per_call_tracing_options_reach_client_defaults :
  tracingEnabled (clientOptions (fst untracedClient)) (snd untracedClient) = false
  /\ match Do respondingWorld 11 (fst untracedClient) getRequest
              [WithTracingOptions true "call" []] (snd untracedClient) with
     | Some (_, _, h') =>
         tracingEnabled (clientOptions (fst untracedClient)) h' = true
         /\ match Do respondingWorld 11 (fst untracedClient) getRequest [] h' with
            | Some (_, st2, _) => countEvents isSpanEvent (trace st2) = 4%nat
            | None => False
            end
     | None => False
     end
  /\ match Do respondingWorld 11 (fst untracedClient) getRequest [] (snd untracedClient) with
     | Some (_, st0, _) => countEvents isSpanEvent (trace st0) = 0%nat
     | None => False
     end.
Proof.
  vm_compute. repeat split.
Qed.

(** ** Scenarios of the test suite *)

(** "request options overwrite client options, retry the request": the
    client allows one attempt, the call allows two and asks for a span with
    its carrier injected; the first attempt times out, the second succeeds
    after two transport calls in all. *)
Example request_options_overwrite_client_options :
  match Do slowFirstWorld 11 (fst (New 0 [WithRetryPolicy Second 1 []] emptyHeap))
           (postRequest (NewBytesSeekReader []))
           [WithTracingOptions true "testOp" []; WithSpanCarrierInjected;
            WithRetryPolicy (500 * Millisecond) 2 []]
           (snd (New 0 [WithRetryPolicy Second 1 []] emptyHeap))
  with
  | Some (Returned (Some r) None, st, _) =>
      StatusCode r = 204
      /\ transportCalls (trace st) = 2%nat
      /\ header st = [("mockpfx-ids-traceid", "1")]
  | _ => False
  end.
Proof.
  vm_compute. repeat split.
Qed.

(** "Cancel the operation if the context deadline exceed": fifteen attempts
    are allowed, the caller's deadline passes after five, and the call
    returns the context's error with a nil response. *)
Example deadline_exceeded_cancels_the_call :
  match Do deadlineWorld 16
           (fst (New 0 [WithRetryPolicy (100 * Millisecond) 15 []] emptyHeap))
           getRequest [] (snd (New 0 [WithRetryPolicy (100 * Millisecond) 15 []] emptyHeap))
  with
  | Some (Returned None (Some err), st, _) =>
      err = DeadlineExceeded /\ transportCalls (trace st) = 5%nat
  | _ => False
  end.
Proof.
  vm_compute. split; reflexivity.
Qed.
